(** * RRM: identity map and lazy proxies (src/Proxy.js)

    A shallow embedding of [ProxyFactory] and [ObjectManager].  JavaScript
    objects live in an explicit heap and are referred to by location, so
    that object identity ([indexOf], "the same reference") is observable.
    Exceptions are modelled by the [result] type; every operation that
    mutates the manager returns the state it leaves behind, also when it
    throws. *)

From Stdlib Require Import ZArith Ascii String.
From stdpp Require Import gmap strings list fin_maps.

Local Open Scope Z_scope.

(** ** Primitive values *)

(** Numbers are the integer-valued ones plus NaN ([VNum n] is a number of
    the language when [n] is a double, as every integer up to [2 ^ 53] in
    absolute value is); object references do not occur as property values
    or ids in this model. *)
Inductive value : Type :=
| VUndef
| VNull
| VBool (b : bool)
| VNum (n : Z)
| VNaN
| VStr (s : string).

Global Instance value_eq_dec : EqDecision value.
Proof. solve_decision. Defined.

(** ** Strings as numbers *)

(** Strings are UTF-8 byte sequences.  The white space and line terminator
    code points below 128, as single bytes. *)
Definition is_ws_byte (a : ascii) : bool :=
  let n := nat_of_ascii a in
  (n =? 9)%nat || (n =? 10)%nat || (n =? 11)%nat || (n =? 12)%nat
  || (n =? 13)%nat || (n =? 32)%nat.

(** U+00A0 *)
Definition is_ws2 (a b : ascii) : bool :=
  (nat_of_ascii a =? 194)%nat && (nat_of_ascii b =? 160)%nat.

(** U+1680, U+2000 to U+200A, U+2028, U+2029, U+202F, U+205F, U+3000 and
    U+FEFF *)
Definition is_ws3 (a b c : ascii) : bool :=
  let x := nat_of_ascii a in
  let y := nat_of_ascii b in
  let z := nat_of_ascii c in
  ((x =? 225) && (y =? 154) && (z =? 128))%nat
  || ((x =? 226) && (y =? 128) && (128 <=? z) && (z <=? 138))%nat
  || ((x =? 226) && (y =? 128) && ((z =? 168) || (z =? 169) || (z =? 175)))%nat
  || ((x =? 226) && (y =? 129) && (z =? 159))%nat
  || ((x =? 227) && (y =? 128) && (z =? 128))%nat
  || ((x =? 239) && (y =? 187) && (z =? 191))%nat.

Fixpoint skip_ws (s : string) : string :=
  match s with
  | String a r =>
      if is_ws_byte a then skip_ws r
      else
        match r with
        | String b r2 =>
            if is_ws2 a b then skip_ws r2
            else
              match r2 with
              | String c r3 => if is_ws3 a b c then skip_ws r3 else s
              | EmptyString => s
              end
        | EmptyString => s
        end
  | EmptyString => EmptyString
  end.

(** The same on a reversed string, whose bytes come last first. *)
Fixpoint skip_ws_rev (s : string) : string :=
  match s with
  | String z r =>
      if is_ws_byte z then skip_ws_rev r
      else
        match r with
        | String y r2 =>
            if is_ws2 y z then skip_ws_rev r2
            else
              match r2 with
              | String x r3 => if is_ws3 x y z then skip_ws_rev r3 else s
              | EmptyString => s
              end
        | EmptyString => s
        end
  | EmptyString => EmptyString
  end.

Definition trim (s : string) : string :=
  String.rev (skip_ws_rev (String.rev (skip_ws s))).

(** The value of a digit in a base up to 16. *)
Definition digit_value (base : Z) (a : ascii) : option Z :=
  let n := Z.of_nat (nat_of_ascii a) in
  let d :=
    if (48 <=? n) && (n <=? 57) then n - 48
    else if (97 <=? n) && (n <=? 102) then n - 87
    else if (65 <=? n) && (n <=? 70) then n - 55
    else 16 in
  if d <? base then Some d else None.

(** The longest prefix of digits: its value on top of [acc], the number of
    digits added to [len], and the rest of the string. *)
Fixpoint take_digits (base acc len : Z) (s : string) : Z * Z * string :=
  match s with
  | String a r =>
      match digit_value base a with
      | Some d => take_digits base (base * acc + d) (len + 1) r
      | None => (acc, len, s)
      end
  | EmptyString => (acc, len, s)
  end.

(** A whole string of one digit or more. *)
Definition all_digits (base : Z) (s : string) : option Z :=
  match take_digits base 0 0 s with
  | (v, len, EmptyString) => if 0 <? len then Some v else None
  | _ => None
  end.

(** [0x], [0o] and [0b] literals (no sign). *)
Definition prefixed_literal (s : string) : option Z :=
  match s with
  | String z (String x r) =>
      if Ascii.eqb z "0" then
        if Ascii.eqb x "x" || Ascii.eqb x "X" then all_digits 16 r
        else if Ascii.eqb x "o" || Ascii.eqb x "O" then all_digits 8 r
        else if Ascii.eqb x "b" || Ascii.eqb x "B" then all_digits 2 r
        else None
      else None
  | _ => None
  end.

(** The exponent after [e] or [E]. *)
Definition exponent_part (s : string) : option Z :=
  match s with
  | String a r =>
      if Ascii.eqb a "+" then all_digits 10 r
      else if Ascii.eqb a "-" then Z.opp <$> all_digits 10 r
      else all_digits 10 s
  | EmptyString => None
  end.

(** An unsigned decimal literal [digits . digits e exponent], as the digits
    [m] read as one integer, their number [len], and the power of ten [e]
    that scales them: the literal denotes [m * 10 ^ e].  [Infinity] is no
    integer and is left with the strings that are no number. *)
Definition unsigned_decimal (s : string) : option (Z * Z * Z) :=
  let '(i, ilen, r1) := take_digits 10 0 0 s in
  let '(m, flen, r2) :=
    match r1 with
    | String a r => if Ascii.eqb a "." then take_digits 10 i 0 r else (i, 0, r1)
    | EmptyString => (i, 0, r1)
    end in
  if ilen + flen =? 0 then None
  else
    match r2 with
    | EmptyString => Some (m, ilen + flen, - flen)
    | String a r =>
        if Ascii.eqb a "e" || Ascii.eqb a "E" then
          match exponent_part r with
          | Some x => Some (m, ilen + flen, x - flen)
          | None => None
          end
        else None
    end.

Definition round_half_even (num den : Z) : Z :=
  let q := num / den in
  let r := num mod den in
  if 2 * r <? den then q
  else if den <? 2 * r then q + 1
  else if Z.even q then q else q + 1.

(** The double nearest to [n / d] (for [0 <= n] and [0 < d], ties to even),
    when it is finite and an integer.  With [2 ^ k <= n / d < 2 ^ (k + 1)],
    the double is a multiple [q * 2 ^ j] of the unit in the last place,
    [j = k - 52], or [j = -1074] for the subnormal ones. *)
Definition double_of_ratio (n d : Z) : option Z :=
  if n =? 0 then Some 0
  else
    let k0 := Z.log2 n - Z.log2 d in
    let above := if 0 <=? k0 then d * 2 ^ k0 <=? n else d <=? n * 2 ^ (- k0) in
    let k := if above then k0 else k0 - 1 in
    let j := Z.max (k - 52) (-1074) in
    if 0 <=? j then
      let v := round_half_even n (d * 2 ^ j) * 2 ^ j in
      if 2 ^ 1024 <=? v then None else Some v
    else
      let q := round_half_even (n * 2 ^ (- j)) d in
      if q mod 2 ^ (- j) =? 0 then Some (q / 2 ^ (- j)) else None.

(** [m * 10 ^ e] as a double, for a literal of [len] digits.  Beyond the
    range of the doubles the answer needs no arithmetic: from [10 ^ 310] on
    the double is infinite, and below [10 ^ (-330)] it is zero. *)
Definition decimal_value (m len e : Z) : option Z :=
  if m =? 0 then Some 0
  else if 310 <=? e then None
  else if len + e <? -330 then Some 0
  else if 0 <=? e then double_of_ratio (m * 10 ^ e) 1
  else double_of_ratio m (10 ^ (- e)).

Definition signed_decimal (s : string) : option Z :=
  match s with
  | String a r =>
      if Ascii.eqb a "+" then
        match unsigned_decimal r with
        | Some (m, len, e) => decimal_value m len e
        | None => None
        end
      else if Ascii.eqb a "-" then
        match unsigned_decimal r with
        | Some (m, len, e) => Z.opp <$> decimal_value m len e
        | None => None
        end
      else
        match unsigned_decimal s with
        | Some (m, len, e) => decimal_value m len e
        | None => None
        end
  | EmptyString => None
  end.

(** ToNumber on strings (StringToNumber): white space is trimmed, the empty
    string is 0, and a numeric literal (decimal with fraction and exponent,
    or hexadecimal, octal or binary) is rounded to the nearest double.  The
    result is given when that double is an integer; [None] stands for any
    other outcome (NaN, an infinity, a number with a fraction), none of
    which is equal to a number of the model. *)
Definition string_to_number (s : string) : option Z :=
  match trim s with
  | EmptyString => Some 0
  | t =>
      match prefixed_literal t with
      | Some n => double_of_ratio n 1
      | None => signed_decimal t
      end
  end.

Definition to_number (v : value) : option Z :=
  match v with
  | VUndef => None
  | VNull => Some 0
  | VBool b => Some (if b then 1 else 0)
  | VNum n => Some n
  | VNaN => None
  | VStr s => string_to_number s
  end.

Definition num_eq (a b : option Z) : bool :=
  match a, b with
  | Some x, Some y => x =? y
  | _, _ => false
  end.

(** The [==] operator (abstract equality) on primitive values. *)
Definition loose_eq (x y : value) : bool :=
  match x, y with
  | VUndef, VUndef | VUndef, VNull | VNull, VUndef | VNull, VNull => true
  | VUndef, _ | VNull, _ | _, VUndef | _, VNull => false
  | VStr a, VStr b => String.eqb a b
  | VBool a, VBool b => Bool.eqb a b
  | _, _ => num_eq (to_number x) (to_number y)
  end.

Local Close Scope Z_scope.

(** ** Exceptions *)

Inductive error : Type :=
| NotLoadable          (* Error('Entity cannot be loaded') *)
| NotLoaded            (* Error('not loaded') *)
| TransformMandatory   (* Error('transform is mandatory') *)
| TypeError            (* thrown by the language: call or read on undefined *)
| Raised (msg : string). (* thrown by a collaborator's function *)

Inductive result (A : Type) : Type :=
| Ok (a : A)
| Throw (e : error).
Arguments Ok {A} a.
Arguments Throw {A} e.

(** ** Schemas and entity classes *)

(** A plain JavaScript object with primitive property values; an absent key
    reads as undefined. *)
Abbreviation record := (gmap string value).

Definition record_get (data : record) (name : string) : value :=
  default VUndef (data !! name).

(** A property definition of a schema.  [transform] is [None] when the
    definition has no 'transform' key.  Transforms are pure functions of the
    input value that may throw. *)
Record Property : Type := {
  transform : option (value -> result value);
  reverseTransform : option (value -> result value);
  readable : bool;
  writable : bool;
  persistable : bool
}.

(** [$schema], in [for ... in] order; property names are unique, and none
    is a name the instances use for their own bookkeeping ([$values],
    [$raw], [$dirty], [object], [load], [addProperty]). *)
Abbreviation Schema := (list (string * Property)).

Fixpoint schema_get (sch : Schema) (name : string) : option Property :=
  match sch with
  | [] => None
  | (n, p) :: rest => if String.eqb n name then Some p else schema_get rest name
  end.

(** A function called with [this] bound to an instance, by its effect on the
    plain (non-schema) own properties of the instance. *)
Abbreviation hook := (record -> result record).

(** An entity class (a constructor function).
    - [cls_name]: the property key that [entityClass.$name] evaluates to;
    - [schema]: [entityClass.prototype.$schema];
    - [body]: the function itself, as run by [entityClass.call(this)];
    - [constructor]: an own property [constructor] of the function object;
      [None] when the class has none, in which case [entityClass.constructor]
      is the inherited [Function.prototype.constructor], i.e. [Function]. *)
Record EntityClass : Type := {
  cls_name : string;
  schema : Schema;
  body : hook;
  constructor : option hook
}.

(** [property.transform(v, _)] *)
Definition call_transform (p : Property) (v : value) : result value :=
  match transform p with
  | Some f => f v
  | None => Throw TypeError
  end.

(** [property.reverseTransform(v, _)] *)
Definition call_reverseTransform (p : Property) (v : value) : result value :=
  match reverseTransform p with
  | Some f => f v
  | None => Throw TypeError
  end.

(** [entityClass.constructor.call(this)]: [Function.call(this)] builds an
    empty anonymous function and leaves [this] alone. *)
Definition call_constructor (cls : EntityClass) (own : record) : result record :=
  match constructor cls with
  | Some h => h own
  | None => Ok own
  end.

(** ** Objects, heap and manager state *)

Abbreviation loc := nat.

(** An object made by [ObjectManager.create]. *)
Record Entity : Type := {
  e_class : EntityClass;
  values : record;    (* $values *)
  raw : record;       (* $raw *)
  dirty : bool;       (* $dirty *)
  e_own : record
}.

(** An instance of a proxy class.  [p_key] is the key of [proxyClasses] under
    which its class is cached (a cached class is never replaced, so the key
    identifies it); [p_class] is the entity class that proxy class closes
    over; [object] is the delegate. *)
Record ProxyInstance : Type := {
  p_key : string;
  p_class : EntityClass;
  p_id : value;
  object : option loc;
  p_own : record
}.

Inductive obj : Type :=
| OEntity (e : Entity)
| OProxy (p : ProxyInstance).

Record state : Type := {
  heap : list obj;
  objectMap : gmap string (list loc);
  proxyClasses : gmap string EntityClass
}.

Definition empty_state : state :=
  {| heap := []; objectMap := ∅; proxyClasses := ∅ |}.

Definition set_heap (st : state) (h : list obj) : state :=
  {| heap := h; objectMap := objectMap st; proxyClasses := proxyClasses st |}.

(** A new object gets the next free location. *)
Definition alloc (st : state) (o : obj) : state * loc :=
  (set_heap st (heap st ++ [o]), length (heap st)).

Definition store (st : state) (l : loc) (o : obj) : state :=
  set_heap st (<[l := o]> (heap st)).

(** ** Property access *)

(** Reading [entity[name]]: schema properties are accessors (a getter only
    when readable), anything else is a plain own property. *)
Definition entity_get (e : Entity) (name : string) : value :=
  match schema_get (schema (e_class e)) name with
  | Some p => if readable p then record_get (values e) name else VUndef
  | None => record_get (e_own e) name
  end.

(** Writing [entity[name] = v]; a schema property without a setter rejects
    the assignment (strict mode). *)
Definition entity_set (e : Entity) (name : string) (v : value) : Entity * result unit :=
  match schema_get (schema (e_class e)) name with
  | Some p =>
      if writable p then
        let e1 := {| e_class := e_class e; values := values e; raw := raw e;
                     dirty := true; e_own := e_own e |} in
        match call_transform p v with
        | Ok w =>
            ({| e_class := e_class e; values := <[name := w]> (values e);
                raw := raw e; dirty := true; e_own := e_own e |}, Ok tt)
        | Throw err => (e1, Throw err)
        end
      else (e, Throw TypeError)
  | None =>
      ({| e_class := e_class e; values := values e; raw := raw e;
          dirty := dirty e; e_own := <[name := v]> (e_own e) |}, Ok tt)
  end.

(** [Proxy.load] *)
Definition load (p : ProxyInstance) : result loc :=
  match object p with
  | None => Throw NotLoadable
  | Some d => Ok d
  end.

(** Reading [o[name]] for a tracked object. *)
Definition get_prop (st : state) (l : loc) (name : string) : result value :=
  match heap st !! l with
  | None => Throw TypeError
  | Some (OEntity e) => Ok (entity_get e name)
  | Some (OProxy p) =>
      if String.eqb name "id" then Ok (p_id p)
      else
        match schema_get (schema (p_class p)) name with
        | Some _ =>
            match load p with
            | Throw err => Throw err
            | Ok d =>
                match heap st !! d with
                | Some (OEntity e) => Ok (entity_get e name)
                | _ => Throw TypeError
                end
            end
        | None => Ok (record_get (p_own p) name)
        end
  end.

(** Writing [o[name] = v] for a tracked object. *)
Definition set_prop (st : state) (l : loc) (name : string) (v : value) : state * result unit :=
  match heap st !! l with
  | None => (st, Throw TypeError)
  | Some (OEntity e) =>
      let '(e', r) := entity_set e name v in (store st l (OEntity e'), r)
  | Some (OProxy p) =>
      if String.eqb name "id" then (st, Throw TypeError)
      else
        match schema_get (schema (p_class p)) name with
        | Some _ =>
            match load p with
            | Throw err => (st, Throw err)
            | Ok d =>
                match heap st !! d with
                | Some (OEntity e) =>
                    let '(e', r) := entity_set e name v in (store st d (OEntity e'), r)
                | _ => (st, Throw TypeError)
                end
            end
        | None =>
            (store st l (OProxy {| p_key := p_key p; p_class := p_class p;
                                   p_id := p_id p; object := object p;
                                   p_own := <[name := v]> (p_own p) |}), Ok tt)
        end
  end.

(** [o.id], as read by the identity-map lookup. *)
Definition obj_id (o : obj) : value :=
  match o with
  | OEntity e => entity_get e "id"
  | OProxy p => p_id p
  end.

Definition id_at (st : state) (l : loc) : value :=
  match heap st !! l with
  | Some o => obj_id o
  | None => VUndef
  end.

(** ** ProxyFactory *)

Definition proxy_key (entityClass : EntityClass) : string :=
  cls_name entityClass +:+ "Proxy".

(** [getProxyClass]: the cached proxy class for the key, created on first
    use.  Returns the entity class that the cached proxy class closes
    over. *)
Definition getProxyClass (st : state) (entityClass : EntityClass) : state * EntityClass :=
  match proxyClasses st !! proxy_key entityClass with
  | Some c => (st, c)
  | None =>
      ({| heap := heap st; objectMap := objectMap st;
          proxyClasses := <[proxy_key entityClass := entityClass]> (proxyClasses st) |},
       entityClass)
  end.

(** [new Proxy(id)] for the proxy class cached under [key] that closes over
    [c]: the delegate is unset, the accessors follow [c]'s schema, and the
    class function is run on the new instance. *)
Definition new_Proxy (key : string) (c : EntityClass) (id : value) : result ProxyInstance :=
  match body c ∅ with
  | Ok own => Ok {| p_key := key; p_class := c; p_id := id; object := None; p_own := own |}
  | Throw err => Throw err
  end.

(** [ProxyFactory.createProxy] *)
Definition factory_createProxy (st : state) (entityClass : EntityClass) (id : value)
  : state * result ProxyInstance :=
  let '(st1, c) := getProxyClass st entityClass in
  (st1, new_Proxy (proxy_key entityClass) c id).

(** [existing instanceof getProxyClass(entityClass)]: objects made by
    [create] never are; a proxy is when its class is the cached one. *)
Definition instanceof_proxy (st : state) (l : loc) (entityClass : EntityClass) : bool :=
  match heap st !! l with
  | Some (OProxy p) => String.eqb (p_key p) (proxy_key entityClass)
  | _ => false
  end.

(** ** ObjectManager *)

Definition bucket (st : state) (name : string) : list loc :=
  default [] (objectMap st !! name).

Definition addToObjectMap (st : state) (entityClass : EntityClass) (entity : loc) : state :=
  let name := cls_name entityClass in
  let map := bucket st name in
  {| heap := heap st;
     objectMap := <[name := if bool_decide (entity ∈ map) then map else map ++ [entity]]>
                    (objectMap st);
     proxyClasses := proxyClasses st |}.

Fixpoint find_id (st : state) (id : value) (map : list loc) : option loc :=
  match map with
  | [] => None
  | l :: rest => if loose_eq (id_at st l) id then Some l else find_id st id rest
  end.

(** [None] is the source's [null]. *)
Definition getFromObjectMap (st : state) (entityClass : EntityClass) (id : value) : option loc :=
  match id with
  | VUndef => None
  | _ =>
      match objectMap st !! cls_name entityClass with
      | None => None
      | Some map => find_id st id map
      end
  end.

Definition loadPropertyValue (entity : Entity) (name : string) (property : Property)
    (data : record) : Entity * result unit :=
  let e1 := {| e_class := e_class entity; values := values entity;
               raw := <[name := record_get data name]> (raw entity);
               dirty := dirty entity; e_own := e_own entity |} in
  match call_transform property (record_get data name) with
  | Ok v =>
      ({| e_class := e_class e1; values := <[name := v]> (values e1);
          raw := raw e1; dirty := dirty e1; e_own := e_own e1 |}, Ok tt)
  | Throw err => (e1, Throw err)
  end.

(** [defineProperty] works on the object under construction, which nothing
    else refers to yet: when it throws, that object is lost. *)
Definition defineProperty (entity : Entity) (name : string) (property : Property)
    (data : record) : result Entity :=
  match transform property with
  | None => Throw TransformMandatory
  | Some _ =>
      match loadPropertyValue entity name property data with
      | (e', Ok _) => Ok e'
      | (_, Throw err) => Throw err
      end
  end.

Fixpoint defineProperties (sch : Schema) (data : record) (entity : Entity) : result Entity :=
  match sch with
  | [] => Ok entity
  | (name, property) :: rest =>
      match defineProperty entity name property data with
      | Ok e' => defineProperties rest data e'
      | Throw err => Throw err
      end
  end.

(** The first half of [create]: [Object.create(...)] and the loop over
    [entity.$schema]. *)
Definition build_entity (entityClass : EntityClass) (data : record) : result Entity :=
  defineProperties (schema entityClass) data
    {| e_class := entityClass; values := ∅; raw := ∅; dirty := false; e_own := ∅ |}.

Fixpoint update_loop (sch : Schema) (data : record) (e : Entity) : Entity * result unit :=
  match sch with
  | [] => (e, Ok tt)
  | (name, property) :: rest =>
      match loadPropertyValue e name property data with
      | (e', Ok _) => update_loop rest data e'
      | (e', Throw err) => (e', Throw err)
      end
  end.

(** [update]; a proxy has no [$raw], so the first iteration throws on it. *)
Definition update (st : state) (existing : loc) (data : record) : state * result unit :=
  match heap st !! existing with
  | None => (st, Throw TypeError)
  | Some (OEntity e) =>
      let '(e', r) := update_loop (schema (e_class e)) data e in
      (store st existing (OEntity e'), r)
  | Some (OProxy p) =>
      match schema (p_class p) with
      | [] => (st, Ok tt)
      | _ :: _ => (st, Throw TypeError)
      end
  end.

Definition set_own (o : obj) (own : record) : obj :=
  match o with
  | OEntity e =>
      OEntity {| e_class := e_class e; values := values e; raw := raw e;
                 dirty := dirty e; e_own := own |}
  | OProxy p =>
      OProxy {| p_key := p_key p; p_class := p_class p; p_id := p_id p;
                object := object p; p_own := own |}
  end.

Definition get_own (o : obj) : record :=
  match o with
  | OEntity e => e_own e
  | OProxy p => p_own p
  end.

Definition set_object (o : obj) (d : loc) : obj :=
  match o with
  | OProxy p =>
      OProxy {| p_key := p_key p; p_class := p_class p; p_id := p_id p;
                object := Some d; p_own := p_own p |}
  | OEntity e => OEntity e
  end.

(** [create]; [data] is [None] for a falsy argument.  The object under
    construction enters the heap only where the source keeps a reference to
    it: as the delegate of the proxy it resolves, or as the new tracked
    entity. *)
Definition create (st : state) (entityClass : EntityClass) (data : option record)
  : state * result loc :=
  let data := default ∅ data in
  match build_entity entityClass data with
  | Throw err => (st, Throw err)
  | Ok entity =>
      match getFromObjectMap st entityClass (record_get data "id") with
      | Some existing =>
          let '(st1, _) := getProxyClass st entityClass in
          if negb (instanceof_proxy st1 existing entityClass) then
            (* this.update(existing, data); return existing; *)
            let '(st2, r) := update st1 existing data in
            match r with
            | Ok _ => (st2, Ok existing)
            | Throw err => (st2, Throw err)
            end
          else
            (* existing.object = entity; entityClass.constructor.call(existing); *)
            let '(st2, d) := alloc st1 (OEntity entity) in
            match heap st2 !! existing with
            | None => (st2, Throw TypeError)
            | Some o =>
                let st3 := store st2 existing (set_object o d) in
                match call_constructor entityClass (get_own o) with
                | Ok own => (store st3 existing (set_own (set_object o d) own), Ok existing)
                | Throw err => (st3, Throw err)
                end
            end
      | None =>
          (* entityClass.constructor.call(entity); addToObjectMap(entityClass, entity); *)
          match call_constructor entityClass (e_own entity) with
          | Throw err => (st, Throw err)
          | Ok own =>
              let '(st1, l) := alloc st (set_own (OEntity entity) own) in
              (addToObjectMap st1 entityClass l, Ok l)
          end
      end
  end.

(** [get] *)
Definition get (st : state) (entityClass : EntityClass) (id : value) : state * result loc :=
  match getFromObjectMap st entityClass id with
  | None => (st, Throw NotLoaded)
  | Some entity => (st, Ok entity)
  end.

(** [getAll] *)
Definition getAll (st : state) (entityClass : EntityClass) : list loc :=
  bucket st (cls_name entityClass).

(** [ObjectManager.createProxy] *)
Definition createProxy (st : state) (entityClass : EntityClass) (id : value)
  : state * result loc :=
  match factory_createProxy st entityClass id with
  | (st1, Throw err) => (st1, Throw err)
  | (st1, Ok p) =>
      let '(st2, l) := alloc st1 (OProxy p) in
      (addToObjectMap st2 entityClass l, Ok l)
  end.

(** [getReference] *)
Definition getReference (st : state) (entityClass : EntityClass) (id : value)
  : state * result loc :=
  match getFromObjectMap st entityClass id with
  | None => createProxy st entityClass id
  | Some reference => (st, Ok reference)
  end.

(** [entity.$schema], found through the prototype chain. *)
Definition schema_of (o : obj) : Schema :=
  match o with
  | OEntity e => schema (e_class e)
  | OProxy p => schema (p_class p)
  end.

Fixpoint toArray_loop (st : state) (entity : loc) (sch : Schema) (data : record)
  : result record :=
  match sch with
  | [] => Ok data
  | (i, property) :: rest =>
      if persistable property then
        match get_prop st entity i with
        | Throw err => Throw err
        | Ok v =>
            match call_reverseTransform property v with
            | Throw err => Throw err
            | Ok w => toArray_loop st entity rest (<[i := w]> data)
            end
        end
      else toArray_loop st entity rest data
  end.

(** [toArray] *)
Definition toArray (st : state) (entity : loc) : result record :=
  match heap st !! entity with
  | None => Throw TypeError
  | Some o => toArray_loop st entity (schema_of o) ∅
  end.

(** ** Sequences of manager calls *)

Inductive call : Type :=
| Construct (entityClass : EntityClass) (data : option record)
| GetReference (entityClass : EntityClass) (id : value).

Definition run_call (st : state) (c : call) : state :=
  match c with
  | Construct entityClass data => fst (create st entityClass data)
  | GetReference entityClass id => fst (getReference st entityClass id)
  end.

Definition run (st : state) (calls : list call) : state :=
  fold_left run_call calls st.

(** ** Notions used by the statements *)

(** [l] is tracked for [(entityClass, id)]: it is in the class's bucket and
    its id compares equal to [id] with [==], the comparison of the lookup. *)
Definition tracked_for (st : state) (entityClass : EntityClass) (id : value) (l : loc) : Prop :=
  l ∈ bucket st (cls_name entityClass) ∧ loose_eq (id_at st l) id = true.

(** Every tracked location is allocated. *)
Definition wf (st : state) : Prop :=
  ∀ name map l, objectMap st !! name = Some map → l ∈ map → l < length (heap st).

(** The state right after [createProxy] succeeds. *)
Definition with_proxy (st : state) (entityClass : EntityClass) (id : value) (own : record) : state :=
  {| heap := heap st ++
       [OProxy {| p_key := proxy_key entityClass;
                  p_class := snd (getProxyClass st entityClass);
                  p_id := id; object := None; p_own := own |}];
     objectMap := <[cls_name entityClass :=
                      bucket st (cls_name entityClass) ++ [length (heap st)]]> (objectMap st);
     proxyClasses := proxyClasses (fst (getProxyClass st entityClass)) |}.

(** The delegate of the proxy at [l], when it has one. *)
Definition delegate_of (st : state) (l : loc) : option loc :=
  match heap st !! l with
  | Some (OProxy p) => object p
  | _ => None
  end.

(** The class reads its id from a readable schema property [id] whose
    transform returns a number unchanged whenever it returns. *)
Definition numeric_id_class (c : EntityClass) : Prop :=
  (∃ p, schema_get (schema c) "id" = Some p ∧ readable p = true)
  ∧ ∀ p n v, ("id", p) ∈ schema c → call_transform p (VNum n) = Ok v → v = VNum n.

(** A call whose id is a number (and, for [create], whose class reads its
    id as above). *)
Definition numeric_call (c : call) : Prop :=
  match c with
  | Construct entityClass data =>
      numeric_id_class entityClass
      ∧ ∃ n, record_get (default ∅ data) "id" = VNum n
  | GetReference entityClass id => ∃ n, id = VNum n
  end.

(** The invariant behind identity uniqueness for numeric ids. *)
Definition numeric_inv (st : state) : Prop :=
  wf st
  ∧ (∀ name l, l ∈ bucket st name → ∃ n, id_at st l = VNum n)
  ∧ (∀ name l e, l ∈ bucket st name → heap st !! l = Some (OEntity e) →
       numeric_id_class (e_class e))
  ∧ (∀ name, NoDup (id_at st <$> bucket st name)).

(** The state after a new object [o] has been allocated and appended to the
    bucket [name]. *)
Definition with_object (st : state) (name : string) (o : obj)
    (pcs : gmap string EntityClass) : state :=
  {| heap := heap st ++ [o];
     objectMap := <[name := bucket st name ++ [length (heap st)]]> (objectMap st);
     proxyClasses := pcs |}.

(** The id a call is made for. *)
Definition call_id (c : call) : value :=
  match c with
  | Construct _ data => record_get (default ∅ data) "id"
  | GetReference _ id => id
  end.

(** The class has a readable schema property [id]. *)
Definition readable_id (c : EntityClass) : Prop :=
  ∃ p, schema_get (schema c) "id" = Some p ∧ readable p = true.

(** Whenever the transform of the class's [id] property returns for [k], it
    returns an id of [S] that is [==] to [k]. *)
Definition reads_id (S : value → Prop) (c : EntityClass) (k : value) : Prop :=
  ∀ p v, ("id", p) ∈ schema c → call_transform p k = Ok v →
    S v ∧ loose_eq v k = true.

(** The calls of a sequence agree on what an id is, [S] being the ids in
    use: undefined is none of them, and on them [==] is reflexive and
    transitive; every call is made for an id of [S]; and every class the
    calls construct has a readable [id] property whose transform takes ids
    of [S] to ids of [S] that are [==] to them. *)
Definition coherent_calls (S : value → Prop) (calls : list call) : Prop :=
  (∀ x, S x → x ≠ VUndef)
  ∧ (∀ x, S x → loose_eq x x = true)
  ∧ (∀ x y z, S x → S y → S z →
       loose_eq x y = true → loose_eq y z = true → loose_eq x z = true)
  ∧ (∀ c, c ∈ calls → S (call_id c))
  ∧ (∀ entityClass data, Construct entityClass data ∈ calls →
       readable_id entityClass ∧ ∀ k, S k → reads_id S entityClass k).

(** The invariant behind identity uniqueness, for ids in [S] and entity
    classes in [C]: no two places of a bucket hold objects whose ids are
    [==]. *)
Definition id_inv (S : value → Prop) (C : EntityClass → Prop) (st : state) : Prop :=
  wf st
  ∧ (∀ name l, l ∈ bucket st name → S (id_at st l))
  ∧ (∀ name l e, l ∈ bucket st name → heap st !! l = Some (OEntity e) → C (e_class e))
  ∧ (∀ name i j l1 l2,
       bucket st name !! i = Some l1 → bucket st name !! j = Some l2 →
       loose_eq (id_at st l1) (id_at st l2) = true → i = j).

(** ** Sample classes for the concrete instances *)

Definition identity_property : Property :=
  {| transform := Some (λ v, Ok v); reverseTransform := Some (λ v, Ok v);
     readable := true; writable := true; persistable := true |}.

(** [this.count = (this.count || 0) + 1] *)
Definition counting_body (own : record) : result record :=
  match record_get own "count" with
  | VNum n => Ok (<["count" := VNum (n + 1)]> own)
  | _ => Ok (<["count" := VNum 1]> own)
  end.

(** A class written as a plain function and set up by [prepareEntity]. *)
Definition User : EntityClass :=
  {| cls_name := "User";
     schema := [("id", identity_property); ("name", identity_property)];
     body := counting_body;
     constructor := None |}.

Definition user_data (id : value) (name : string) : record :=
  <["id" := id]> (<["name" := VStr name]> ∅).

(** [function (v) { if (typeof v !== 'number') throw Error('not a number'); return v; }] *)
Definition number_only (v : value) : result value :=
  match v with
  | VNum n => Ok (VNum n)
  | _ => Throw (Raised "not a number")
  end.

Definition number_property : Property :=
  {| transform := Some number_only; reverseTransform := Some (λ v, Ok v);
     readable := true; writable := true; persistable := true |}.

Definition Account : EntityClass :=
  {| cls_name := "Account";
     schema := [("id", identity_property); ("owner", identity_property);
                ("balance", number_property)];
     body := λ own, Ok own;
     constructor := None |}.

Definition account_data (id : value) (owner : string) (balance : value) : record :=
  <["id" := id]> (<["owner" := VStr owner]> (<["balance" := balance]> ∅)).

(** A pair of transforms that stores a missing value as the empty string
    and marks every string with a prefix; decoding rejects undefined. *)
Definition seal (v : value) : result value :=
  match v with
  | VUndef => Ok (VStr "")
  | VStr s => Ok (VStr (String "$" s))
  | _ => Ok v
  end.

Definition unseal (v : value) : result value :=
  match v with
  | VUndef => Throw (Raised "nothing to unseal")
  | VStr EmptyString => Ok VUndef
  | VStr (String _ s) => Ok (VStr s)
  | _ => Ok v
  end.

(** A persistable property that can be written but not read. *)
Definition sealed_property : Property :=
  {| transform := Some seal; reverseTransform := Some unseal;
     readable := false; writable := true; persistable := true |}.

Definition Vault : EntityClass :=
  {| cls_name := "Vault";
     schema := [("id", identity_property); ("secret", sealed_property)];
     body := λ own, Ok own;
     constructor := None |}.

Definition write_only_property : Property :=
  {| transform := Some (λ v, Ok v); reverseTransform := Some (λ v, Ok v);
     readable := false; writable := true; persistable := true |}.

Definition Login : EntityClass :=
  {| cls_name := "Login";
     schema := [("id", identity_property); ("password", write_only_property)];
     body := λ own, Ok own;
     constructor := None |}.

Definition sample_calls : list call :=
  [GetReference User (VNum 7);
   Construct User (Some (user_data (VNum 7) "Ann"));
   Construct User (Some (user_data (VNum 8) "Bob"));
   GetReference User (VNum 8)].

(** Ids of mixed types: [""], ["0"] and [0]. *)
Definition mixed_calls : list call :=
  [Construct User (Some (user_data (VStr "") "a"));
   Construct User (Some (user_data (VStr "0") "b"));
   Construct User (Some (user_data (VNum 0) "c"));
   Construct User (Some (user_data (VStr "0") "d"))].

(** ** Calls with their results, and object kinds *)

Definition exec_call (st : state) (c : call) : state * result loc :=
  match c with
  | Construct entityClass data => create st entityClass data
  | GetReference entityClass id => getReference st entityClass id
  end.

Definition call_class (c : call) : EntityClass :=
  match c with
  | Construct entityClass _ => entityClass
  | GetReference entityClass _ => entityClass
  end.

(** [o'] is the same kind of object as [o]: an entity of the same class, or
    a proxy of the same proxy class with the same captured id. *)
Definition same_kind (o o' : obj) : Prop :=
  match o, o' with
  | OEntity e, OEntity e' => e_class e' = e_class e
  | OProxy p, OProxy p' =>
      p_key p' = p_key p ∧ p_class p' = p_class p ∧ p_id p' = p_id p
  | _, _ => False
  end.

(** [st'] extends [st]: buckets only grow at their end, every object stays
    where it is and of its kind, and cached proxy classes stay cached. *)
Definition extends (st st' : state) : Prop :=
  (∀ name, bucket st name `prefix_of` bucket st' name)
  ∧ (∀ l o, heap st !! l = Some o → ∃ o', heap st' !! l = Some o' ∧ same_kind o o')
  ∧ (∀ k c0, proxyClasses st !! k = Some c0 → proxyClasses st' !! k = Some c0).

(** ** [prepareEntity] *)

(** A constructor function, with the properties the code reads from the
    function object and the ones [prepareEntity] defines on its prototype
    object (both non-writable and non-configurable once defined). *)
Record ClassFunction : Type := {
  fn_body : hook;                 (* the function, as called with [this] *)
  fn_name : option string;        (* own property [$name] of the function *)
  fn_constructor : option hook;   (* own property [constructor] of the function *)
  proto_name : option string;     (* [$name] of [className.prototype] *)
  proto_schema : option Schema    (* [$schema] of [className.prototype] *)
}.

(** [ObjectManager.prepareEntity]; [schemaClassName] stands for the object
    that [new schemaClassName] builds, a new object at every call.  Defining
    [$name] again is accepted only with the same value; defining [$schema]
    again always throws, the new schema object being another object than
    the one in place. *)
Definition prepareEntity (identifier : string) (className : ClassFunction)
    (schemaClassName : Schema) : ClassFunction * result unit :=
  let named :=
    {| fn_body := fn_body className; fn_name := fn_name className;
       fn_constructor := fn_constructor className;
       proto_name := Some identifier; proto_schema := proto_schema className |} in
  let accepted :=
    match proto_name className with
    | Some n => String.eqb n identifier
    | None => true
    end in
  if accepted then
    match proto_schema className with
    | Some _ => (named, Throw TypeError)
    | None =>
        ({| fn_body := fn_body className; fn_name := fn_name className;
            fn_constructor := fn_constructor className;
            proto_name := Some identifier;
            proto_schema := Some schemaClassName |}, Ok tt)
    end
  else (className, Throw TypeError).

(** The function as the manager and the factory use it: [entityClass.$name]
    is looked up on the function object, where undefined gives the property
    key "undefined"; [$schema] is found on the prototype, and a missing one
    gives loops no property to visit. *)
Definition entity_class_of (f : ClassFunction) : EntityClass :=
  {| cls_name := default "undefined" (fn_name f);
     schema := default [] (proto_schema f);
     body := fn_body f;
     constructor := fn_constructor f |}.

(** Two plain functions before [prepareEntity]. *)
Definition plain_function (b : hook) : ClassFunction :=
  {| fn_body := b; fn_name := None; fn_constructor := None;
     proto_name := None; proto_schema := None |}.

(** Another class whose [$name] is also "User", with another schema. *)
Definition Member : EntityClass :=
  {| cls_name := "User";
     schema := [("id", identity_property); ("email", identity_property)];
     body := λ own, Ok (<["member" := VBool true]> own);
     constructor := None |}.

(** A class whose function throws. *)
Definition Broken : EntityClass :=
  {| cls_name := "Broken";
     schema := [("id", identity_property)];
     body := λ _, Throw (Raised "no instances");
     constructor := None |}.

(** Calls with string ids only. *)
Definition string_calls : list call :=
  [GetReference User (VStr "a7");
   Construct User (Some (user_data (VStr "a7") "Ann"));
   Construct User (Some (user_data (VStr "b8") "Bob"));
   GetReference User (VStr "b8")].

(** A class that reads its ids as numbers: ["7"] becomes [7]. *)
Definition numeric_id_property : Property :=
  {| transform :=
       Some (λ v, match to_number v with Some n => Ok (VNum n) | None => Ok VNaN end);
     reverseTransform := Some (λ v, Ok v);
     readable := true; writable := false; persistable := true |}.

Definition Invoice : EntityClass :=
  {| cls_name := "Invoice";
     schema := [("id", numeric_id_property)];
     body := λ own, Ok own;
     constructor := None |}.

(** Calls that use a number and the string that is [==] to it. *)
Definition coerced_calls : list call :=
  [Construct Invoice (Some (<["id" := VStr "7"]> ∅));
   GetReference Invoice (VNum 7);
   Construct Invoice (Some (<["id" := VNum 7]> ∅))].

(** The ids of [string_calls] and of [coerced_calls]. *)
Definition string_ids (x : value) : Prop := x = VStr "a7" ∨ x = VStr "b8".

Definition coerced_ids (x : value) : Prop := x = VStr "7" ∨ x = VNum 7.

(** A class whose [id] transform does not give the id back. *)
Definition shifted_id_property : Property :=
  {| transform := Some (λ v, match v with VNum n => Ok (VNum (n + 1)) | _ => Ok v end);
     reverseTransform := Some (λ v, match v with VNum n => Ok (VNum (n - 1)) | _ => Ok v end);
     readable := true; writable := true; persistable := true |}.

Definition Ticket : EntityClass :=
  {| cls_name := "Ticket";
     schema := [("id", shifted_id_property)];
     body := λ own, Ok own;
     constructor := None |}.

(** Case analysis on membership in an explicit list. *)
Ltac in_list H :=
  repeat (apply elem_of_cons in H as [H|H]; [try discriminate H|]);
  try (by apply not_elem_of_nil in H).

(** ** Basic facts *)

Lemma wf_empty : wf empty_state.
Proof. intros name map l H. simpl in H. by rewrite lookup_empty in H. Qed.

Lemma bucket_lookup (st : state) (name : string) (map : list loc) :
  objectMap st !! name = Some map → bucket st name = map.
Proof. unfold bucket. by intros ->. Qed.

Lemma wf_bucket (st : state) (name : string) (l : loc) :
  wf st → l ∈ bucket st name → l < length (heap st).
Proof.
  intros Hwf Hin. unfold bucket in Hin.
  destruct (objectMap st !! name) as [map|] eqn:E; simpl in Hin.
  - eauto.
  - by apply not_elem_of_nil in Hin.
Qed.

Lemma fresh_not_in_bucket (st : state) (name : string) :
  wf st → length (heap st) ∉ bucket st name.
Proof. intros Hwf Hin. apply (wf_bucket _ _ _ Hwf) in Hin. lia. Qed.

Lemma getProxyClass_heap (st : state) (c : EntityClass) :
  heap (fst (getProxyClass st c)) = heap st
  ∧ objectMap (fst (getProxyClass st c)) = objectMap st.
Proof. unfold getProxyClass. by destruct (proxyClasses st !! proxy_key c). Qed.

Lemma getProxyClass_cached (st : state) (c : EntityClass) :
  proxyClasses (fst (getProxyClass st c)) !! proxy_key c = Some (snd (getProxyClass st c)).
Proof.
  unfold getProxyClass. destruct (proxyClasses st !! proxy_key c) eqn:E; simpl; [done|].
  by rewrite lookup_insert_eq.
Qed.

Lemma getProxyClass_again (st : state) (c : EntityClass) :
  getProxyClass (fst (getProxyClass st c)) c
  = (fst (getProxyClass st c), snd (getProxyClass st c)).
Proof.
  pose proof (getProxyClass_cached st c) as H.
  unfold getProxyClass at 1. by rewrite H.
Qed.

Lemma createProxy_ok (st : state) (c : EntityClass) (id : value) (own : record) :
  wf st →
  body (snd (getProxyClass st c)) ∅ = Ok own →
  createProxy st c id = (with_proxy st c id own, Ok (length (heap st))).
Proof.
  intros Hwf Hbody. unfold createProxy, factory_createProxy, new_Proxy.
  destruct (getProxyClass st c) as [st1 pc] eqn:E. simpl in Hbody. rewrite Hbody.
  pose proof (getProxyClass_heap st c) as [Hh Hm]. rewrite E in Hh, Hm. simpl in Hh, Hm.
  unfold alloc, addToObjectMap, with_proxy, set_heap, bucket. simpl.
  rewrite E, Hh, Hm. simpl.
  rewrite bool_decide_eq_false_2; [done|].
  apply (fresh_not_in_bucket st (cls_name c) Hwf).
Qed.

Lemma wf_with_proxy (st : state) (c : EntityClass) (id : value) (own : record) :
  wf st → wf (with_proxy st c id own).
Proof.
  intros Hwf name map l. unfold with_proxy. simpl. rewrite length_app. simpl.
  destruct (decide (cls_name c = name)) as [->|Hne].
  - rewrite lookup_insert_eq. intros [= <-] Hin.
    apply elem_of_app in Hin as [Hin|Hin].
    + apply (wf_bucket _ _ _ Hwf) in Hin. lia.
    + apply list_elem_of_singleton in Hin. lia.
  - rewrite lookup_insert_ne by done. intros Hm Hin.
    specialize (Hwf _ _ _ Hm Hin). lia.
Qed.

Lemma getFromObjectMap_undefined (st : state) (c : EntityClass) :
  getFromObjectMap st c VUndef = None.
Proof. reflexivity. Qed.

(** ** Lookup *)

Lemma find_id_Some (st : state) (id : value) (map : list loc) (l : loc) :
  find_id st id map = Some l →
  ∃ pre post, map = pre ++ l :: post
    ∧ loose_eq (id_at st l) id = true
    ∧ ∀ l', l' ∈ pre → loose_eq (id_at st l') id = false.
Proof.
  induction map as [|x map IH]; simpl; [done|].
  destruct (loose_eq (id_at st x) id) eqn:E.
  - intros [= <-]. exists [], map. split_and!; [done|done|].
    intros l' Hin. by apply not_elem_of_nil in Hin.
  - intros H. destruct (IH H) as (pre & post & -> & Hl & Hpre).
    exists (x :: pre), post. split_and!; [done|done|].
    intros l' Hin. apply elem_of_cons in Hin as [->|Hin]; auto.
Qed.

Lemma find_id_None (st : state) (id : value) (map : list loc) :
  find_id st id map = None ↔ ∀ l, l ∈ map → loose_eq (id_at st l) id = false.
Proof.
  induction map as [|x map IH]; simpl.
  - split; [|done]. intros _ l Hin. by apply not_elem_of_nil in Hin.
  - destruct (loose_eq (id_at st x) id) eqn:E.
    + split; [done|]. intros H. specialize (H x (list_elem_of_here _ _)). congruence.
    + rewrite IH. split.
      * intros H l Hin. apply elem_of_cons in Hin as [->|Hin]; auto.
      * intros H l Hin. apply H. by apply list_elem_of_further.
Qed.

Lemma getFromObjectMap_defined (st : state) (c : EntityClass) (id : value) :
  id ≠ VUndef → getFromObjectMap st c id = find_id st id (bucket st (cls_name c)).
Proof.
  intros Hid. unfold getFromObjectMap, bucket.
  destruct id; try done; by destruct (objectMap st !! cls_name c).
Qed.

Lemma getFromObjectMap_Some (st : state) (c : EntityClass) (id : value) (l : loc) :
  getFromObjectMap st c id = Some l → id ≠ VUndef ∧ tracked_for st c id l.
Proof.
  intros H. assert (id ≠ VUndef) as Hid by (intros ->; discriminate).
  split; [done|]. rewrite getFromObjectMap_defined in H by done.
  apply find_id_Some in H as (pre & post & Hb & Hl & _).
  split; [|done]. rewrite Hb. apply elem_of_app. right. apply list_elem_of_here.
Qed.

Lemma getFromObjectMap_None (st : state) (c : EntityClass) (id : value) :
  (∀ l, ¬ tracked_for st c id l) → getFromObjectMap st c id = None.
Proof.
  intros H. destruct (decide (id = VUndef)) as [->|Hid]; [done|].
  rewrite getFromObjectMap_defined by done. apply find_id_None.
  intros l Hin. destruct (loose_eq (id_at st l) id) eqn:E; [|done].
  exfalso. by apply (H l).
Qed.

Lemma getProxyClass_ext (st st' : state) (c : EntityClass) :
  proxyClasses st' = proxyClasses st →
  snd (getProxyClass st' c) = snd (getProxyClass st c)
  ∧ proxyClasses (fst (getProxyClass st' c)) = proxyClasses (fst (getProxyClass st c)).
Proof.
  intros H. unfold getProxyClass. rewrite H.
  destruct (proxyClasses st !! proxy_key c); simpl; by rewrite ?H.
Qed.

Lemma getProxyClass_with_proxy (st : state) (c : EntityClass) (id : value) (own : record) :
  snd (getProxyClass (with_proxy st c id own) c) = snd (getProxyClass st c).
Proof.
  pose proof (getProxyClass_again st c) as H.
  destruct (getProxyClass_ext (fst (getProxyClass st c)) (with_proxy st c id own) c) as [-> _];
    [done|]. by rewrite H.
Qed.

Lemma lookup_fresh (h : list obj) (o : obj) : (h ++ [o]) !! length h = Some o.
Proof. rewrite lookup_app_r by lia. by rewrite Nat.sub_diag. Qed.

Lemma bucket_with_proxy (st : state) (c : EntityClass) (id : value) (own : record) :
  bucket (with_proxy st c id own) (cls_name c)
  = bucket st (cls_name c) ++ [length (heap st)].
Proof. unfold bucket at 1, with_proxy. simpl. by rewrite lookup_insert_eq. Qed.

Lemma id_at_old (st st' : state) (l : loc) (o : obj) :
  heap st' = heap st ++ [o] → l < length (heap st) → id_at st' l = id_at st l.
Proof. intros H Hl. unfold id_at. rewrite H. by rewrite lookup_app_l. Qed.

Lemma id_at_fresh (st st' : state) (o : obj) :
  heap st' = heap st ++ [o] → id_at st' (length (heap st)) = obj_id o.
Proof. intros H. unfold id_at. by rewrite H, lookup_fresh. Qed.

(** ** Access to an unresolved proxy *)

Lemma unresolved_get (st : state) (l : loc) (p : ProxyInstance) (name : string) :
  heap st !! l = Some (OProxy p) → object p = None →
  name ≠ "id" → is_Some (schema_get (schema (p_class p)) name) →
  get_prop st l name = Throw NotLoadable.
Proof.
  intros Hl Hobj Hname [q Hq]. unfold get_prop. rewrite Hl.
  apply String.eqb_neq in Hname. rewrite Hname, Hq. unfold load. by rewrite Hobj.
Qed.


Lemma createProxy_inv (st st' : state) (c : EntityClass) (id : value) (l : loc) :
  createProxy st c id = (st', Ok l) →
  ∃ own, body (snd (getProxyClass st c)) ∅ = Ok own
    ∧ l = length (heap st)
    ∧ heap st' = heap st ++
        [OProxy {| p_key := proxy_key c; p_class := snd (getProxyClass st c);
                   p_id := id; object := None; p_own := own |}].
Proof.
  unfold createProxy, factory_createProxy, new_Proxy.
  pose proof (getProxyClass_heap st c) as [Hh _].
  destruct (getProxyClass st c) as [st1 pc]. simpl in *.
  destruct (body pc ∅) as [own|err]; [|discriminate].
  unfold alloc, addToObjectMap. simpl. intros [= <- <-]. simpl.
  exists own. by rewrite Hh.
Qed.




(** ** Lookup by id *)

(** C9 (amended). [get] never changes the state.  It throws 'not loaded'
    when the id is undefined and when no object of the class's bucket has
    an id equal ([==]) to the requested one; for any other id it returns the
    first object of the bucket whose id is equal to it. *)
Theorem get_finds_first_tracked (st : state) (c : EntityClass) (id : value) :
  fst (get st c id) = st
  ∧ (id = VUndef → snd (get st c id) = Throw NotLoaded)
  ∧ ((∀ l, ¬ tracked_for st c id l) → snd (get st c id) = Throw NotLoaded)
  ∧ (id ≠ VUndef → (∃ l, tracked_for st c id l) →
       ∃ l pre post, snd (get st c id) = Ok l
         ∧ tracked_for st c id l
         ∧ bucket st (cls_name c) = pre ++ l :: post
         ∧ ∀ l', l' ∈ pre → ¬ tracked_for st c id l').
Proof.
  split_and!.
  - unfold get. by destruct (getFromObjectMap st c id).
  - intros ->. reflexivity.
  - intros H. unfold get. by rewrite getFromObjectMap_None.
  - intros Hid [l0 [Hin Heq]]. unfold get.
    rewrite getFromObjectMap_defined by done.
    destruct (find_id st id (bucket st (cls_name c))) as [l|] eqn:E.
    + destruct (find_id_Some _ _ _ _ E) as (pre & post & Hb & Hl & Hpre).
      exists l, pre, post. split_and!; try done.
      * split; [|done]. rewrite Hb. apply elem_of_app. right. apply list_elem_of_here.
      * intros l' Hin' [_ Heq']. rewrite (Hpre l' Hin') in Heq'. discriminate.
    + exfalso. rewrite find_id_None in E. rewrite (E l0 Hin) in Heq. discriminate.
Qed.

Lemma get_finds_first_tracked_witness :
  ∃ l, snd (get (fst (getReference empty_state User (VNum 7))) User (VNum 7)) = Ok l
    ∧ tracked_for (fst (getReference empty_state User (VNum 7))) User (VNum 7) l.
Proof.
  destruct (get_finds_first_tracked (fst (getReference empty_state User (VNum 7)))
              User (VNum 7)) as (_ & _ & _ & H).
  destruct H as (l & pre & post & Hl & Ht & _ & _).
  - discriminate.
  - exists 0. split; [|reflexivity]. vm_compute. apply list_elem_of_here.
  - exists l. split; [exact Hl|exact Ht].
Defined.

(** C9, as stated, fails for the undefined id: a proxy with undefined id is
    tracked, and [get] still throws. *)
Lemma get_undefined_counterexample :
  let st := fst (getReference empty_state User VUndef) in
  tracked_for st User VUndef 0
  ∧ get st User VUndef = (st, Throw NotLoaded).
Proof.
  split; [|reflexivity].
  split; [|reflexivity]. vm_compute. apply list_elem_of_here.
Qed.

(** ** The undefined id *)

Lemma length_with_proxy (st : state) (c : EntityClass) (id : value) (own : record) :
  length (heap (with_proxy st c id own)) = S (length (heap st)).
Proof. unfold with_proxy. simpl. rewrite length_app. simpl. lia. Qed.

(** C10 (amended). With an undefined id the lookup always misses: [get]
    throws 'not loaded' in every state, and every [getReference] for which
    the class function returns normally on the new proxy makes a new proxy
    and appends it to the class's bucket, so two calls leave two tracked
    objects whose id is undefined (and [get] still throws). *)
Theorem undefined_id_never_found (st : state) (c : EntityClass) (own : record) :
  wf st →
  body (snd (getProxyClass st c)) ∅ = Ok own →
  let st1 := with_proxy st c VUndef own in
  let st2 := with_proxy st1 c VUndef own in
  (∀ s, get s c VUndef = (s, Throw NotLoaded))
  ∧ getReference st c VUndef = (st1, Ok (length (heap st)))
  ∧ getReference st1 c VUndef = (st2, Ok (S (length (heap st))))
  ∧ bucket st2 (cls_name c)
    = bucket st (cls_name c) ++ [length (heap st); S (length (heap st))]
  ∧ id_at st2 (length (heap st)) = VUndef
  ∧ id_at st2 (S (length (heap st))) = VUndef.
Proof.
  intros Hwf Hbody st1 st2.
  assert (wf st1) as Hwf1 by by apply wf_with_proxy.
  assert (length (heap st1) = S (length (heap st))) as Hlen
    by apply length_with_proxy.
  split_and!.
  - reflexivity.
  - unfold getReference. simpl. by apply createProxy_ok.
  - unfold getReference. simpl. rewrite <- Hlen. apply createProxy_ok; [done|].
    subst st1. by rewrite getProxyClass_with_proxy.
  - subst st2. rewrite bucket_with_proxy. subst st1. rewrite bucket_with_proxy.
    rewrite length_with_proxy. by rewrite <- app_assoc.
  - rewrite (id_at_old st1 st2 _ _ eq_refl) by lia.
    by rewrite (id_at_fresh st st1 _ eq_refl).
  - rewrite <- Hlen. by rewrite (id_at_fresh st1 st2 _ eq_refl).
Qed.

(** C10, as stated, fails when the class function throws: the [Proxy]
    constructor runs it on the new proxy, so [getReference] throws and no
    proxy is registered. *)
Lemma undefined_reference_counterexample :
  let r := getReference empty_state Broken VUndef in
  snd r = Throw (Raised "no instances")
  ∧ getAll (fst r) Broken = []
  ∧ heap (fst r) = [].
Proof. vm_compute. done. Qed.

Lemma undefined_id_never_found_witness :
  bucket (fst (getReference (fst (getReference empty_state User VUndef)) User VUndef)) "User"
  = [0; 1].
Proof.
  pose proof (undefined_id_never_found empty_state User (<["count" := VNum 1]> ∅)
                wf_empty eq_refl) as (_ & H1 & H2 & Hb & _).
  rewrite H1. simpl. rewrite H2. simpl. exact Hb.
Defined.

(** ** Loading property values *)

Lemma schema_get_elem (sch : Schema) (name : string) (p : Property) :
  schema_get sch name = Some p → (name, p) ∈ sch.
Proof.
  induction sch as [|[n q] sch IH]; simpl; [done|].
  destruct (String.eqb n name) eqn:E.
  - apply String.eqb_eq in E as ->. intros [= ->]. apply list_elem_of_here.
  - intros H. apply list_elem_of_further. auto.
Qed.

Lemma schema_get_None (sch : Schema) (name : string) :
  schema_get sch name = None ↔ name ∉ sch.*1.
Proof.
  induction sch as [|[n q] sch IH]; simpl.
  - split; [|done]. intros _. apply not_elem_of_nil.
  - rewrite not_elem_of_cons. destruct (String.eqb n name) eqn:E.
    + apply String.eqb_eq in E as ->. split; [done|]. by intros [? _].
    + apply String.eqb_neq in E. rewrite IH. split; [by split|by intros [_ ?]].
Qed.

Lemma schema_get_unique (sch : Schema) (name : string) (p : Property) :
  NoDup sch.*1 → (name, p) ∈ sch → schema_get sch name = Some p.
Proof.
  induction sch as [|[n q] sch IH]; simpl; intros Hnd Hin.
  - by apply not_elem_of_nil in Hin.
  - apply NoDup_cons in Hnd as [Hn Hnd].
    apply elem_of_cons in Hin as [[= -> ->]|Hin].
    + by rewrite String.eqb_refl.
    + destruct (String.eqb n name) eqn:E; [|auto].
      apply String.eqb_eq in E as ->. exfalso. apply Hn.
      apply list_elem_of_fmap. by exists (name, p).
Qed.

Lemma loadPropertyValue_inv (e e' : Entity) (n : string) (q : Property) (data : record)
    (r : result unit) :
  loadPropertyValue e n q data = (e', r) →
  e_class e' = e_class e ∧ dirty e' = dirty e ∧ e_own e' = e_own e
  ∧ raw e' = <[n := record_get data n]> (raw e)
  ∧ match r with
    | Ok _ => ∃ v, call_transform q (record_get data n) = Ok v
                ∧ values e' = <[n := v]> (values e)
    | Throw err => call_transform q (record_get data n) = Throw err
                   ∧ values e' = values e
    end.
Proof.
  unfold loadPropertyValue.
  destruct (call_transform q (record_get data n)) as [v|err]; intros [= <- <-]; simpl;
    split_and!; eauto.
Qed.

Lemma update_loop_inv (sch : Schema) (data : record) (e e' : Entity) (r : result unit) :
  update_loop sch data e = (e', r) →
  e_class e' = e_class e ∧ dirty e' = dirty e ∧ e_own e' = e_own e
  ∧ ∀ name,
      values e' !! name = values e !! name
      ∨ ∃ p v, (name, p) ∈ sch
          ∧ call_transform p (record_get data name) = Ok v
          ∧ values e' !! name = Some v.
Proof.
  revert e. induction sch as [|[n q] sch IH]; simpl; intros e.
  - intros [= <- <-]. split_and!; auto.
  - destruct (loadPropertyValue e n q data) as [e1 r1] eqn:E.
    apply loadPropertyValue_inv in E as (Hc & Hd & Ho & _ & Hv).
    destruct r1 as [[]|err].
    + intros H. apply IH in H as (Hc' & Hd' & Ho' & Hvals).
      destruct Hv as (v & Hv & Hvs).
      split_and!; [congruence..|]. intros name.
      destruct (Hvals name) as [Heq|(p & w & Hin & Hw & Hs)].
      * rewrite Heq, Hvs. destruct (decide (n = name)) as [->|Hne].
        -- right. exists q, v. rewrite lookup_insert_eq.
           split_and!; [apply list_elem_of_here|done..].
        -- left. by rewrite lookup_insert_ne.
      * right. exists p, w. split_and!; [by apply list_elem_of_further|done..].
    + intros [= <- <-]. destruct Hv as [_ Hvs]. split_and!; try done.
      intros name. left. by rewrite Hvs.
Qed.

Lemma update_loop_other (sch : Schema) (data : record) (e e' : Entity) (r : result unit)
    (name : string) :
  update_loop sch data e = (e', r) → name ∉ sch.*1 →
  values e' !! name = values e !! name ∧ raw e' !! name = raw e !! name.
Proof.
  revert e. induction sch as [|[n q] sch IH]; simpl; intros e.
  - by intros [= <- <-].
  - intros H [Hne Hnin]%not_elem_of_cons.
    destruct (loadPropertyValue e n q data) as [e1 r1] eqn:E.
    apply loadPropertyValue_inv in E as (_ & _ & _ & Hr & Hv).
    destruct r1 as [[]|err].
    + destruct (IH _ H Hnin) as [-> ->]. destruct Hv as (v & _ & ->).
      rewrite Hr. by rewrite !lookup_insert_ne.
    + injection H as <- <-. destruct Hv as [_ ->]. rewrite Hr.
      by rewrite lookup_insert_ne.
Qed.

Lemma update_loop_ok (sch : Schema) (data : record) (e e' : Entity) :
  NoDup sch.*1 →
  update_loop sch data e = (e', Ok tt) →
  ∀ name p, (name, p) ∈ sch →
    ∃ v, call_transform p (record_get data name) = Ok v
      ∧ values e' !! name = Some v
      ∧ raw e' !! name = Some (record_get data name).
Proof.
  revert e. induction sch as [|[n q] sch IH]; simpl; intros e Hnd H name p Hin.
  - by apply not_elem_of_nil in Hin.
  - apply NoDup_cons in Hnd as [Hn Hnd].
    destruct (loadPropertyValue e n q data) as [e1 r1] eqn:E.
    apply loadPropertyValue_inv in E as (_ & _ & _ & Hr & Hv).
    destruct r1 as [[]|err]; [|discriminate].
    apply elem_of_cons in Hin as [[= -> ->]|Hin]; [|eauto].
    destruct (update_loop_other _ _ _ _ _ n H Hn) as [Hvs Hrs].
    destruct Hv as (v & Hv & Hvals). exists v.
    rewrite Hvs, Hrs, Hvals, Hr. by rewrite !lookup_insert_eq.
Qed.

(** Defining the properties of a fresh object loads them as [update] does. *)
Lemma defineProperties_update_loop (sch : Schema) (data : record) (e e' : Entity) :
  defineProperties sch data e = Ok e' → update_loop sch data e = (e', Ok tt).
Proof.
  revert e. induction sch as [|[n q] sch IH]; simpl; intros e.
  - by intros [= <-].
  - unfold defineProperty. destruct (transform q); [|discriminate].
    destruct (loadPropertyValue e n q data) as [e1 [[]|err]]; [|discriminate].
    apply IH.
Qed.

Lemma update_loop_defineProperties (sch : Schema) (data : record) (e e' : Entity) :
  update_loop sch data e = (e', Ok tt) → defineProperties sch data e = Ok e'.
Proof.
  revert e. induction sch as [|[n q] sch IH]; simpl; intros e.
  - by intros [= <-].
  - unfold defineProperty.
    destruct (loadPropertyValue e n q data) as [e1 r1] eqn:E.
    pose proof (loadPropertyValue_inv _ _ _ _ _ _ E) as (_ & _ & _ & _ & Hv).
    destruct r1 as [[]|err]; [|discriminate].
    destruct Hv as (v & Hv & _). unfold call_transform in Hv.
    destruct (transform q); [|discriminate]. apply IH.
Qed.

(** A property whose transform is missing or throws makes the construction
    loop throw. *)
Lemma defineProperties_throws (sch : Schema) (data : record) (e : Entity)
    (name : string) (p : Property) (err : error) :
  (name, p) ∈ sch →
  call_transform p (record_get data name) = Throw err →
  ∃ err', defineProperties sch data e = Throw err'.
Proof.
  revert e. induction sch as [|[n q] sch IH]; simpl; intros e Hin Hp.
  - by apply not_elem_of_nil in Hin.
  - destruct (defineProperty e n q data) as [e1|err1] eqn:E; [|eauto].
    apply elem_of_cons in Hin as [[= -> ->]|Hin]; [|eauto].
    exfalso. unfold defineProperty, loadPropertyValue in E.
    destruct (transform q) as [f|] eqn:Et; [|discriminate].
    rewrite Hp in E. discriminate.
Qed.

(** ** Failure during [update] and [create] *)

Lemma store_lookup_ne (st : state) (l l' : loc) (o : obj) :
  l ≠ l' → heap (store st l o) !! l' = heap st !! l'.
Proof. intros H. unfold store. simpl. by rewrite list_lookup_insert_ne. Qed.

Lemma store_lookup_eq (st : state) (l : loc) (o o' : obj) :
  heap st !! l = Some o' → heap (store st l o) !! l = Some o.
Proof.
  intros H. unfold store. simpl. apply list_lookup_insert_eq.
  by apply lookup_lt_Some in H.
Qed.

Lemma update_frame (st st' : state) (l : loc) (data : record) (r : result unit) :
  update st l data = (st', r) →
  objectMap st' = objectMap st
  ∧ proxyClasses st' = proxyClasses st
  ∧ length (heap st') = length (heap st)
  ∧ ∀ l', l' ≠ l → heap st' !! l' = heap st !! l'.
Proof.
  unfold update. destruct (heap st !! l) as [[e|p]|] eqn:E.
  - destruct (update_loop (schema (e_class e)) data e) as [e' r']. intros [= <- <-].
    split_and!; try done.
    + unfold store. simpl. by rewrite length_insert.
    + intros l' Hne. by apply store_lookup_ne.
  - destruct (schema (p_class p)); by intros [= <- <-].
  - by intros [= <- <-].
Qed.

(** C4, as stated, fails for [update]: the transform of [balance] throws
    after [owner] has been overwritten. *)
Lemma update_partial_counterexample :
  let st := fst (create empty_state Account (Some (account_data (VNum 1) "Ann" (VNum 10)))) in
  let st' := fst (update st 0 (account_data (VNum 1) "Bob" (VStr "x"))) in
  snd (update st 0 (account_data (VNum 1) "Bob" (VStr "x"))) = Throw (Raised "not a number")
  ∧ get_prop st 0 "owner" = Ok (VStr "Ann")
  ∧ get_prop st' 0 "owner" = Ok (VStr "Bob").
Proof. vm_compute. done. Qed.

(** ** Tracked locations stay allocated *)

Lemma wf_mono (st st' : state) :
  wf st → objectMap st' = objectMap st → length (heap st) ≤ length (heap st') → wf st'.
Proof.
  intros Hwf Hm Hlen name map l Hl Hin. rewrite Hm in Hl.
  specialize (Hwf _ _ _ Hl Hin). lia.
Qed.

Lemma wf_alloc_add (st : state) (c : EntityClass) (o : obj) :
  wf st → wf (addToObjectMap (fst (alloc st o)) c (snd (alloc st o))).
Proof.
  intros Hwf name map l. unfold addToObjectMap, alloc, bucket. simpl.
  rewrite length_app. simpl.
  destruct (decide (cls_name c = name)) as [->|Hne].
  - rewrite lookup_insert_eq. intros [= <-] Hin.
    assert (l ∈ default [] (objectMap st !! name) ∨ l = length (heap st)) as [Hl| ->].
    { case_bool_decide; [by left|].
      apply elem_of_app in Hin as [?|Hin]; [by left|].
      apply list_elem_of_singleton in Hin. by right. }
    + apply (wf_bucket st name l Hwf) in Hl. lia.
    + lia.
  - rewrite lookup_insert_ne by done. intros Hm Hin.
    specialize (Hwf _ _ _ Hm Hin). lia.
Qed.

Lemma getReference_wf (st : state) (c : EntityClass) (id : value) :
  wf st → wf (fst (getReference st c id)).
Proof.
  intros Hwf. unfold getReference.
  destruct (getFromObjectMap st c id); [done|].
  unfold createProxy, factory_createProxy.
  destruct (getProxyClass st c) as [st1 pc] eqn:Hg.
  destruct (getProxyClass_heap st c) as [Hh Hm]. rewrite Hg in Hh, Hm. simpl in Hh, Hm.
  assert (wf st1) as Hwf1 by (apply (wf_mono st); [done|done|by rewrite Hh]).
  destruct (new_Proxy (proxy_key c) pc id) as [p|err]; [|done].
  apply (wf_alloc_add st1 c (OProxy p) Hwf1).
Qed.

Lemma create_wf (st : state) (c : EntityClass) (data : option record) :
  wf st → wf (fst (create st c data)).
Proof.
  intros Hwf. unfold create.
  destruct (build_entity c (default ∅ data)) as [ent|err]; [|done].
  destruct (getFromObjectMap st c (record_get (default ∅ data) "id")) as [l|].
  - destruct (getProxyClass st c) as [st1 pc] eqn:Hg.
    destruct (getProxyClass_heap st c) as [Hh Hm]. rewrite Hg in Hh, Hm. simpl in Hh, Hm.
    assert (wf st1) as Hwf1 by (apply (wf_mono st); [done|done|by rewrite Hh]).
    destruct (instanceof_proxy st1 l c); simpl.
    + destruct ((heap st1 ++ [OEntity ent]) !! l) as [o|]; simpl.
      * destruct (call_constructor c (get_own o)); simpl;
          (apply (wf_mono st1); [done|done|]); simpl;
          rewrite !length_insert, length_app; lia.
      * apply (wf_mono st1); [done|done|]. simpl. rewrite length_app. lia.
    + destruct (update st1 l (default ∅ data)) as [st2 r] eqn:Hu.
      apply update_frame in Hu as (Hm2 & _ & Hlen & _).
      assert (wf st2) by (apply (wf_mono st1); [done|done|lia]).
      by destruct r.
  - destruct (call_constructor c (e_own ent)) as [own|err]; [|done].
    apply (wf_alloc_add st c (set_own (OEntity ent) own) Hwf).
Qed.

(** Every state reached from the empty manager keeps its tracked locations
    allocated. *)
Lemma run_wf (calls : list call) (st : state) : wf st → wf (run st calls).
Proof.
  revert st. induction calls as [|c calls IH]; simpl; intros st Hwf; [done|].
  apply IH. destruct c; simpl; [by apply create_wf|by apply getReference_wf].
Qed.

(** ** Resolution of a proxy *)

Lemma instanceof_proxy_heap (st st' : state) (l : loc) (c : EntityClass) :
  heap st' = heap st → instanceof_proxy st' l c = instanceof_proxy st l c.
Proof. intros H. unfold instanceof_proxy. by rewrite H. Qed.

(** What [create] does when the lookup finds a proxy of the class. *)
Lemma create_resolves (st : state) (c : EntityClass) (data : record) (e : Entity)
    (l : loc) (p : ProxyInstance) (own : record) :
  build_entity c data = Ok e →
  getFromObjectMap st c (record_get data "id") = Some l →
  heap st !! l = Some (OProxy p) →
  p_key p = proxy_key c →
  call_constructor c (p_own p) = Ok own →
  ∃ st', create st c (Some data) = (st', Ok l)
    ∧ objectMap st' = objectMap st
    ∧ length (heap st') = S (length (heap st))
    ∧ heap st' !! l
      = Some (OProxy {| p_key := p_key p; p_class := p_class p; p_id := p_id p;
                        object := Some (length (heap st)); p_own := own |})
    ∧ heap st' !! length (heap st) = Some (OEntity e)
    ∧ ∀ l', l' ≠ l → l' < length (heap st) → heap st' !! l' = heap st !! l'.
Proof.
  intros Hb Hfind Hl Hkey Hcall. unfold create. simpl. rewrite Hb, Hfind.
  pose proof (getProxyClass_heap st c) as [Hh Hm].
  destruct (getProxyClass st c) as [st1 pc]. simpl in Hh, Hm.
  assert (instanceof_proxy st1 l c = true) as ->.
  { unfold instanceof_proxy. rewrite Hh, Hl, Hkey. apply String.eqb_refl. }
  pose proof (lookup_lt_Some _ _ _ Hl) as Hlt.
  simpl. rewrite Hh.
  rewrite (lookup_app_l (heap st) [OEntity e]) by done. rewrite Hl. simpl. rewrite Hcall.
  eexists. split; [reflexivity|]. simpl.
  assert (l < length (heap st ++ [OEntity e])) as Hlt' by (rewrite length_app; lia).
  split_and!.
  - done.
  - rewrite !length_insert, length_app. simpl. lia.
  - rewrite list_lookup_insert_eq; [done|]. by rewrite length_insert.
  - rewrite !list_lookup_insert_ne by lia. apply lookup_fresh.
  - intros l' Hne Hl'. rewrite !list_lookup_insert_ne by done.
    by rewrite lookup_app_l.
Qed.

(** C5 (amended). A proxy is created without a delegate, and [get] and
    [getReference] leave existing objects alone; but every [create] that
    finds the proxy tracked for its id, resolved or not, sets the delegate
    to the entity it has just built, a new object. *)
Theorem delegate_set_by_every_create (st : state) (c : EntityClass) (data : record)
    (e : Entity) (l : loc) (p : ProxyInstance) (own : record) :
  build_entity c data = Ok e →
  getFromObjectMap st c (record_get data "id") = Some l →
  heap st !! l = Some (OProxy p) →
  p_key p = proxy_key c →
  call_constructor c (p_own p) = Ok own →
  (∃ st', create st c (Some data) = (st', Ok l)
     ∧ delegate_of st' l = Some (length (heap st))
     ∧ heap st' !! length (heap st) = Some (OEntity e))
  ∧ (∀ s s' id l', createProxy s c id = (s', Ok l') →
       ∃ q, heap s' !! l' = Some (OProxy q) ∧ object q = None)
  ∧ (∀ id, fst (get st c id) = st)
  ∧ (∀ id l', l' < length (heap st) →
       heap (fst (getReference st c id)) !! l' = heap st !! l').
Proof.
  intros Hb Hfind Hl Hkey Hcall. split_and!.
  - destruct (create_resolves st c data e l p own) as (st' & Hc & _ & _ & Hp & He & _);
      try done.
    exists st'. split_and!; [done| |done]. unfold delegate_of. by rewrite Hp.
  - intros s s' id l' H. apply createProxy_inv in H as (o & _ & -> & Hheap).
    eexists. split; [by rewrite Hheap, lookup_fresh|done].
  - intros id. unfold get. by destruct (getFromObjectMap st c id).
  - intros id l' Hl'. unfold getReference.
    destruct (getFromObjectMap st c id); [done|].
    unfold createProxy, factory_createProxy.
    pose proof (getProxyClass_heap st c) as [Hh _].
    destruct (getProxyClass st c) as [st1 pc]. simpl in Hh.
    destruct (new_Proxy (proxy_key c) pc id); simpl; rewrite Hh; [|done].
    by rewrite lookup_app_l.
Qed.

Lemma delegate_set_by_every_create_witness :
  let st1 := fst (getReference empty_state User (VNum 7)) in
  let st2 := fst (create st1 User (Some (user_data (VNum 7) "Ann"))) in
  ∃ st3, create st2 User (Some (user_data (VNum 7) "Bob")) = (st3, Ok 0)
    ∧ delegate_of st3 0 = Some 2.
Proof.
  intros st1 st2.
  destruct (delegate_set_by_every_create st2 User (user_data (VNum 7) "Bob")
              {| e_class := User;
                 values := <["name" := VStr "Bob"]> (<["id" := VNum 7]> ∅);
                 raw := <["name" := VStr "Bob"]> (<["id" := VNum 7]> ∅);
                 dirty := false; e_own := ∅ |}
              0
              {| p_key := "UserProxy"; p_class := User; p_id := VNum 7;
                 object := Some 1; p_own := <["count" := VNum 1]> ∅ |}
              (<["count" := VNum 1]> ∅))
    as [(st3 & Hc & Hd & _) _]; try reflexivity.
  exists st3. split; [exact Hc|exact Hd].
Defined.

(** C5, as stated, fails: a second [create] for the same id replaces the
    delegate of the already resolved proxy. *)
Lemma delegate_replaced_counterexample :
  let st1 := fst (getReference empty_state User (VNum 7)) in
  let st2 := fst (create st1 User (Some (user_data (VNum 7) "Ann"))) in
  let st3 := fst (create st2 User (Some (user_data (VNum 7) "Bob"))) in
  delegate_of st1 0 = None
  ∧ delegate_of st2 0 = Some 1
  ∧ delegate_of st3 0 = Some 2.
Proof. vm_compute. done. Qed.

Lemma find_id_app (st : state) (id : value) (pre rest : list loc) :
  (∀ l, l ∈ pre → loose_eq (id_at st l) id = false) →
  find_id st id (pre ++ rest) = find_id st id rest.
Proof.
  induction pre as [|x pre IH]; simpl; intros H; [done|].
  rewrite (H x (list_elem_of_here _ _)). apply IH.
  intros l Hin. apply H. by apply list_elem_of_further.
Qed.

Lemma build_entity_inv (c : EntityClass) (data : record) (e : Entity) :
  build_entity c data = Ok e →
  e_class e = c ∧ dirty e = false ∧ e_own e = ∅
  ∧ (NoDup (schema c).*1 → ∀ name p, (name, p) ∈ schema c →
       ∃ v, call_transform p (record_get data name) = Ok v
         ∧ values e !! name = Some v
         ∧ raw e !! name = Some (record_get data name)).
Proof.
  unfold build_entity. intros H. apply defineProperties_update_loop in H.
  pose proof (update_loop_inv _ _ _ _ _ H) as (Hc & Hd & Ho & _).
  split_and!; try done. intros Hnd. by apply (update_loop_ok _ _ _ _ Hnd H).
Qed.

Lemma getProxyClass_own (st : state) (c : EntityClass) :
  (∀ c', proxyClasses st !! proxy_key c = Some c' → c' = c) →
  snd (getProxyClass st c) = c.
Proof.
  intros H. unfold getProxyClass.
  destruct (proxyClasses st !! proxy_key c) as [c'|] eqn:E; simpl; auto.
Qed.

(** C2 (amended). Let [K] be an id other than undefined that is equal to
    itself under [==], with nothing tracked for it, and let [P] be the
    reference that [getReference] returns for it.  A following [create]
    whose data has id [K], and which builds and runs its hook normally,
    returns the same location [P]; afterwards reading [id] on [P] gives
    [K], and reading any other readable schema property gives the
    transform of its raw value. *)
Theorem reference_stable_under_resolution (st st1 : state) (c : EntityClass) (K : value)
    (data : record) (e : Entity) (P : loc) :
  wf st →
  K ≠ VUndef →
  loose_eq K K = true →
  NoDup (schema c).*1 →
  (∀ c', proxyClasses st !! proxy_key c = Some c' → c' = c) →
  (∀ l, ¬ tracked_for st c K l) →
  getReference st c K = (st1, Ok P) →
  record_get data "id" = K →
  build_entity c data = Ok e →
  (∀ own, ∃ own', call_constructor c own = Ok own') →
  ∃ st2, create st1 c (Some data) = (st2, Ok P)
    ∧ get_prop st2 P "id" = Ok K
    ∧ ∀ name p, schema_get (schema c) name = Some p → readable p = true → name ≠ "id" →
        ∃ v, call_transform p (record_get data name) = Ok v
          ∧ get_prop st2 P name = Ok v.
Proof.
  intros Hwf HK Hrefl Hnd Hcache Hnone Href Hid Hbuild Hhook.
  unfold getReference in Href. rewrite (getFromObjectMap_None _ _ _ Hnone) in Href.
  pose proof (createProxy_inv _ _ _ _ _ Href) as (own0 & Hbody & -> & _).
  rewrite (createProxy_ok _ _ _ _ Hwf Hbody) in Href. injection Href as <-.
  pose proof (getProxyClass_own _ _ Hcache) as Hpc.
  set (st1 := with_proxy st c K own0).
  set (p := {| p_key := proxy_key c; p_class := snd (getProxyClass st c);
               p_id := K; object := None; p_own := own0 |}).
  assert (heap st1 !! length (heap st) = Some (OProxy p)) as HP by apply lookup_fresh.
  destruct (Hhook own0) as [own1 Hown1].
  destruct (create_resolves st1 c data e (length (heap st)) p own1)
    as (st2 & Hc & _ & _ & HP2 & He2 & _); try done.
  { rewrite Hid, getFromObjectMap_defined by done.
    subst st1. rewrite bucket_with_proxy. rewrite find_id_app.
    - simpl. rewrite (id_at_fresh st (with_proxy st c K own0) _ eq_refl). simpl.
      by rewrite Hrefl.
    - intros l Hin. rewrite (id_at_old st (with_proxy st c K own0) l _ eq_refl)
        by by apply (wf_bucket _ _ _ Hwf) in Hin.
      destruct (loose_eq (id_at st l) K) eqn:E; [|done]. exfalso. by apply (Hnone l). }
  exists st2. split; [done|]. split.
  - unfold get_prop. by rewrite HP2.
  - intros name q Hq Hread Hname.
    destruct (build_entity_inv _ _ _ Hbuild) as (Hcls & _ & _ & Hvals).
    destruct (Hvals Hnd name q (schema_get_elem _ _ _ Hq)) as (v & Hv & Hval & _).
    assert (length (heap st1) = S (length (heap st))) as Hlen by apply length_with_proxy.
    rewrite Hlen in He2, HP2.
    exists v. split; [done|]. unfold get_prop. rewrite HP2. simpl.
    apply String.eqb_neq in Hname. rewrite Hname, Hpc, Hq. simpl. rewrite He2.
    unfold entity_get. rewrite Hcls, Hq, Hread. unfold record_get. by rewrite Hval.
Qed.

Lemma reference_stable_under_resolution_witness :
  ∃ st2, create (fst (getReference empty_state User (VNum 7))) User
           (Some (user_data (VNum 7) "Ann")) = (st2, Ok 0)
    ∧ get_prop st2 0 "id" = Ok (VNum 7)
    ∧ get_prop st2 0 "name" = Ok (VStr "Ann").
Proof.
  destruct (reference_stable_under_resolution empty_state
              (fst (getReference empty_state User (VNum 7))) User (VNum 7)
              (user_data (VNum 7) "Ann")
              {| e_class := User;
                 values := <["name" := VStr "Ann"]> (<["id" := VNum 7]> ∅);
                 raw := <["name" := VStr "Ann"]> (<["id" := VNum 7]> ∅);
                 dirty := false; e_own := ∅ |} 0)
    as (st2 & Hc & Hid & Hprops).
  - exact wf_empty.
  - discriminate.
  - reflexivity.
  - vm_compute. apply NoDup_cons. split.
    + intros [H|H]%elem_of_cons; [discriminate|]. by apply not_elem_of_nil in H.
    + apply NoDup_cons. split; [apply not_elem_of_nil|apply NoDup_nil_2].
  - intros c' H. simpl in H. by rewrite lookup_empty in H.
  - intros l [H _]. vm_compute in H. by apply not_elem_of_nil in H.
  - reflexivity.
  - reflexivity.
  - reflexivity.
  - intros own. exists own. reflexivity.
  - exists st2. split; [exact Hc|]. split; [exact Hid|].
    destruct (Hprops "name" identity_property) as (v & Hv & Hget);
      [reflexivity|reflexivity|discriminate|].
    simpl in Hv. injection Hv as <-. exact Hget.
Defined.

(** C2, as stated, fails for the undefined id: the lookup of [create] misses
    the proxy and a second object is returned. *)
Lemma reference_undefined_counterexample :
  let st1 := fst (getReference empty_state User VUndef) in
  (∀ l, ¬ tracked_for empty_state User VUndef l)
  ∧ snd (getReference empty_state User VUndef) = Ok 0
  ∧ record_get (user_data VUndef "Ann") "id" = VUndef
  ∧ snd (create st1 User (Some (user_data VUndef "Ann"))) = Ok 1.
Proof.
  split; [|by vm_compute].
  intros l [H _]. vm_compute in H. by apply not_elem_of_nil in H.
Qed.

(** ** The post-construction hook *)

(** Without an own [constructor] property on the class, a new entity comes
    back from [create] with no own property: the class function has not
    been applied to it. *)
Lemma create_new_entity_own (st st' : state) (c : EntityClass) (data : record)
    (l : loc) :
  constructor c = None →
  getFromObjectMap st c (record_get data "id") = None →
  create st c (Some data) = (st', Ok l) →
  ∃ e, heap st' !! l = Some (OEntity e) ∧ e_own e = ∅.
Proof.
  intros Hctor Hfind. unfold create, call_constructor. simpl. rewrite Hfind, Hctor.
  destruct (build_entity c data) as [ent|] eqn:Hb; [|discriminate].
  simpl. intros [= <- <-]. simpl. rewrite lookup_fresh. eexists. split; [done|].
  simpl. by destruct (build_entity_inv _ _ _ Hb) as (_ & _ & ? & _).
Qed.

(** C3. For a class written as a plain function, [create] calls [Function]
    where the claim has it call the class: the returned object never gets
    the effect of the class function.  [User] counts its calls in [count]:
    a new entity has no [count], and a proxy that [create] resolves keeps
    the count 1 it got when the proxy was made. *)
Theorem create_skips_class_function :
  let fresh := create empty_state User (Some (user_data (VNum 1) "Ann")) in
  let st1 := fst (getReference empty_state User (VNum 7)) in
  let resolved := create st1 User (Some (user_data (VNum 7) "Ann")) in
  body User ∅ = Ok (<["count" := VNum 1]> ∅)
  ∧ snd fresh = Ok 0
  ∧ get_prop (fst fresh) 0 "count" = Ok VUndef
  ∧ get_prop st1 0 "count" = Ok (VNum 1)
  ∧ snd resolved = Ok 0
  ∧ get_prop (fst resolved) 0 "count" = Ok (VNum 1).
Proof. vm_compute. done. Qed.

(** ** [toArray] *)

Lemma get_prop_entity (st : state) (l : loc) (e : Entity) (name : string) :
  heap st !! l = Some (OEntity e) → get_prop st l name = Ok (entity_get e name).
Proof. intros H. unfold get_prop. by rewrite H. Qed.

Lemma toArray_loop_entity (st : state) (l : loc) (e : Entity) (sch : Schema) (acc : record) :
  heap st !! l = Some (OEntity e) →
  (∀ n q, (n, q) ∈ sch → persistable q = true →
     ∃ u, call_reverseTransform q (entity_get e n) = Ok u) →
  ∃ r, toArray_loop st l sch acc = Ok r
    ∧ (∀ n, (∀ q, (n, q) ∈ sch → persistable q = false) → r !! n = acc !! n)
    ∧ (NoDup sch.*1 → ∀ n q, (n, q) ∈ sch → persistable q = true →
         ∃ u, call_reverseTransform q (entity_get e n) = Ok u ∧ r !! n = Some u).
Proof.
  intros Hl. revert acc. induction sch as [|[n q] sch IH]; simpl; intros acc Hrt.
  - exists acc. split_and!; [done|done|].
    intros _ n q Hin. by apply not_elem_of_nil in Hin.
  - assert (∀ n' q', (n', q') ∈ sch → persistable q' = true →
              ∃ u, call_reverseTransform q' (entity_get e n') = Ok u) as Hrt'.
    { intros n' q' Hin. apply Hrt. by apply list_elem_of_further. }
    destruct (persistable q) eqn:Hp.
    + rewrite (get_prop_entity _ _ _ _ Hl).
      destruct (Hrt n q (list_elem_of_here _ _) Hp) as [u Hu]. rewrite Hu.
      destruct (IH (<[n := u]> acc) Hrt') as (r & Hr & Hother & Hin).
      exists r. split_and!; [done| |].
      * intros n' Hn'. rewrite Hother.
        -- apply lookup_insert_ne. intros ->.
           specialize (Hn' q (list_elem_of_here _ _)). congruence.
        -- intros q' Hq'. apply Hn'. by apply list_elem_of_further.
      * intros [Hn Hnd]%NoDup_cons n' q' [[= -> ->]|Hin']%elem_of_cons Hp'.
        -- exists u. split; [done|]. rewrite Hother; [apply lookup_insert_eq|].
           intros q' Hq'. exfalso. apply Hn. apply list_elem_of_fmap. by exists (n, q').
        -- by apply Hin.
    + destruct (IH acc Hrt') as (r & Hr & Hother & Hin).
      exists r. split_and!; [done| |].
      * intros n' Hn'. apply Hother. intros q' Hq'. apply Hn'.
        by apply list_elem_of_further.
      * intros [Hn Hnd]%NoDup_cons n' q' [[= -> ->]|Hin']%elem_of_cons Hp'.
        -- congruence.
        -- by apply Hin.
Qed.

Lemma toArray_entity (st : state) (l : loc) (e : Entity) :
  heap st !! l = Some (OEntity e) →
  NoDup (schema (e_class e)).*1 →
  (∀ n q, (n, q) ∈ schema (e_class e) → persistable q = true →
     ∃ u, call_reverseTransform q (entity_get e n) = Ok u) →
  ∃ r, toArray st l = Ok r
    ∧ (∀ n q, (n, q) ∈ schema (e_class e) → persistable q = true →
         ∃ u, call_reverseTransform q (entity_get e n) = Ok u ∧ r !! n = Some u)
    ∧ (∀ n, is_Some (r !! n) →
         ∃ q, (n, q) ∈ schema (e_class e) ∧ persistable q = true).
Proof.
  intros Hl Hnd Hrt. unfold toArray. rewrite Hl. simpl.
  destruct (toArray_loop_entity st l e (schema (e_class e)) ∅ Hl Hrt)
    as (r & Hr & Hother & Hin).
  exists r. split_and!; [done|by apply Hin|].
  intros n [u Hu].
  destruct (schema_get (schema (e_class e)) n) as [q|] eqn:Hq.
  - destruct (persistable q) eqn:Hp.
    + exists q. split; [by apply schema_get_elem|done].
    + exfalso. rewrite Hother in Hu; [by rewrite lookup_empty in Hu|].
      intros q' Hq'. apply (schema_get_unique _ _ _ Hnd) in Hq'. congruence.
  - exfalso. rewrite Hother in Hu; [by rewrite lookup_empty in Hu|].
    intros q' Hq'. apply (schema_get_unique _ _ _ Hnd) in Hq'. congruence.
Qed.

(** The entity that [create] returns has the transformed raw data as its
    values, whether it was just built or updated in place. *)
Lemma create_entity_values (st st' : state) (c : EntityClass) (data : record) (l : loc)
    (e : Entity) :
  create st c (Some data) = (st', Ok l) →
  heap st' !! l = Some (OEntity e) →
  NoDup (schema (e_class e)).*1 →
  ∀ name p, (name, p) ∈ schema (e_class e) →
    ∃ v, call_transform p (record_get data name) = Ok v ∧ values e !! name = Some v.
Proof.
  unfold create. simpl.
  destruct (build_entity c data) as [ent|] eqn:Hb; [|discriminate].
  destruct (getFromObjectMap st c (record_get data "id")) as [existing|] eqn:Hf.
  - destruct (getProxyClass st c) as [st1 pc] eqn:Hg.
    destruct (instanceof_proxy st1 existing c) eqn:Hi; simpl.
    + unfold instanceof_proxy in Hi.
      destruct (heap st1 !! existing) as [[e0|p]|] eqn:E; try discriminate.
      rewrite (lookup_app_l (heap st1)) by by apply lookup_lt_Some in E.
      rewrite E. simpl. destruct (call_constructor c (p_own p)); intros [= <- <-].
      simpl. intros H. rewrite list_lookup_insert_eq in H; [discriminate|].
      rewrite length_insert, length_app. apply lookup_lt_Some in E. lia.
    + destruct (update st1 existing data) as [st2 r] eqn:Hu.
      destruct r as [[]|]; intros [= <- <-]. unfold update in Hu.
      destruct (heap st1 !! existing) as [[e0|p]|] eqn:E.
      * destruct (update_loop (schema (e_class e0)) data e0) as [e' r'] eqn:Hloop.
        injection Hu as <- ->. rewrite (store_lookup_eq _ _ _ _ E). intros [= <-].
        pose proof (update_loop_inv _ _ _ _ _ Hloop) as (Hc & _).
        rewrite Hc. intros Hnd name p Hin.
        destruct (update_loop_ok _ _ _ _ Hnd Hloop name p Hin) as (v & ? & ? & _). eauto.
      * destruct (schema (p_class p)); [|discriminate]. injection Hu as <-. congruence.
      * discriminate.
  - destruct (call_constructor c (e_own ent)) as [own|]; [|discriminate].
    simpl. intros [= <- <-]. simpl. rewrite lookup_fresh. intros [= <-]. simpl.
    destruct (build_entity_inv _ _ _ Hb) as (Hc & _ & _ & Hvals).
    rewrite Hc. intros Hnd name p Hin.
    destruct (Hvals Hnd name p Hin) as (v & ? & ? & _). eauto.
Qed.

(** C7 (amended). Take the entity that [create] returns for raw data, with
    every persistable property of its schema satisfying
    [reverseTransform (transform x) = x], and the reverse transform of every
    persistable property that is not readable returning normally on
    undefined.  Then [toArray] returns a record that maps every persistable
    and readable property to its raw input value, and whose keys are all
    names of persistable properties. *)
Theorem toArray_round_trip (st st' : state) (c : EntityClass) (data : record) (l : loc)
    (e : Entity) :
  create st c (Some data) = (st', Ok l) →
  heap st' !! l = Some (OEntity e) →
  NoDup (schema (e_class e)).*1 →
  (∀ name p x y, (name, p) ∈ schema (e_class e) → persistable p = true →
     call_transform p x = Ok y → call_reverseTransform p y = Ok x) →
  (∀ name p, (name, p) ∈ schema (e_class e) → persistable p = true →
     readable p = false → ∃ w, call_reverseTransform p VUndef = Ok w) →
  ∃ r, toArray st' l = Ok r
    ∧ (∀ name p, (name, p) ∈ schema (e_class e) → persistable p = true →
         readable p = true → r !! name = Some (record_get data name))
    ∧ (∀ name, is_Some (r !! name) →
         ∃ p, (name, p) ∈ schema (e_class e) ∧ persistable p = true).
Proof.
  intros Hc Hl Hnd Hround Hunread.
  pose proof (create_entity_values _ _ _ _ _ _ Hc Hl Hnd) as Hvals.
  assert (∀ n q, (n, q) ∈ schema (e_class e) → persistable q = true →
            ∃ u, call_reverseTransform q (entity_get e n) = Ok u
              ∧ (readable q = true → u = record_get data n)) as Hrt.
  { intros n q Hin Hp. unfold entity_get.
    rewrite (schema_get_unique _ _ _ Hnd Hin).
    destruct (readable q) eqn:Hr.
    - destruct (Hvals n q Hin) as (v & Hv & Hval).
      exists (record_get data n). split; [|done].
      unfold record_get at 1. rewrite Hval. simpl. by apply (Hround n).
    - destruct (Hunread n q Hin Hp Hr) as [w Hw]. exists w. by split. }
  destruct (toArray_entity st' l e Hl Hnd) as (r & Hr & Hpers & Hkeys).
  { intros n q Hin Hp. destruct (Hrt n q Hin Hp) as (u & ? & _). eauto. }
  exists r. split_and!; [done| |done].
  intros name p Hin Hp Hread.
  destruct (Hpers name p Hin Hp) as (u & Hu & ->).
  destruct (Hrt name p Hin Hp) as (u' & Hu' & Heq).
  rewrite Hu in Hu'. injection Hu' as ->. by rewrite Heq.
Qed.

Lemma NoDup_two (a b : string) : a ≠ b → NoDup [a; b].
Proof.
  intros H. apply NoDup_cons. split.
  - by intros ->%list_elem_of_singleton.
  - apply NoDup_singleton.
Qed.

Lemma toArray_round_trip_witness :
  ∃ r, toArray (fst (create empty_state User (Some (user_data (VNum 7) "Ann")))) 0 = Ok r
    ∧ r !! "name" = Some (VStr "Ann").
Proof.
  destruct (toArray_round_trip empty_state
              (fst (create empty_state User (Some (user_data (VNum 7) "Ann"))))
              User (user_data (VNum 7) "Ann") 0
              {| e_class := User;
                 values := <["name" := VStr "Ann"]> (<["id" := VNum 7]> ∅);
                 raw := <["name" := VStr "Ann"]> (<["id" := VNum 7]> ∅);
                 dirty := false; e_own := ∅ |})
    as (r & Hr & Hval & _).
  - reflexivity.
  - reflexivity.
  - apply NoDup_two. discriminate.
  - intros name p x y Hin _ Hy. simpl in Hin.
    apply elem_of_cons in Hin as [[= _ ->]|Hin];
      [|apply list_elem_of_singleton in Hin as [= _ ->]];
      simpl in Hy; injection Hy as <-; reflexivity.
  - intros name p Hin _ Hr. simpl in Hin.
    apply elem_of_cons in Hin as [[= _ ->]|Hin];
      [|apply list_elem_of_singleton in Hin as [= _ ->]]; discriminate.
  - exists r. split; [exact Hr|].
    apply (Hval "name" identity_property); [|reflexivity..].
    simpl. apply list_elem_of_further, list_elem_of_here.
Defined.

(** C7, as stated, fails when a persistable property is not readable:
    [toArray] hands undefined to its reverse transform, which may throw
    although it inverts the transform. *)
Lemma toArray_unreadable_counterexample :
  let made := create empty_state Vault (Some (<["id" := VNum 1]> (<["secret" := VStr "a"]> ∅))) in
  (∀ x, ∃ y, seal x = Ok y ∧ unseal y = Ok x)
  ∧ snd made = Ok 0
  ∧ toArray (fst made) 0 = Throw (Raised "nothing to unseal").
Proof.
  split; [|by vm_compute].
  intros x. destruct x; eexists; split; reflexivity.
Qed.

(** ** Writing a property *)

(** C8 (amended). Assigning [v] to a writable schema property of an entity
    sets its dirty flag and stores [transform v] in its values.  When the
    property is also readable and persistable, a [toArray] that follows
    (with every reverse transform returning) maps the property to the
    reverse transform of that new value. *)
Theorem write_marks_dirty (st : state) (l : loc) (e : Entity) (name : string)
    (p : Property) (v w : value) :
  heap st !! l = Some (OEntity e) →
  NoDup (schema (e_class e)).*1 →
  schema_get (schema (e_class e)) name = Some p →
  writable p = true →
  call_transform p v = Ok w →
  let e' := {| e_class := e_class e; values := <[name := w]> (values e);
               raw := raw e; dirty := true; e_own := e_own e |} in
  let st' := store st l (OEntity e') in
  set_prop st l name v = (st', Ok tt)
  ∧ heap st' !! l = Some (OEntity e')
  ∧ (readable p = true → persistable p = true →
     (∀ n q, (n, q) ∈ schema (e_class e) → persistable q = true →
        ∃ u, call_reverseTransform q (entity_get e' n) = Ok u) →
     ∃ r u, toArray st' l = Ok r
       ∧ call_reverseTransform p w = Ok u
       ∧ r !! name = Some u).
Proof.
  intros Hl Hnd Hp Hw Ht e' st'.
  assert (heap st' !! l = Some (OEntity e')) as Hl' by by eapply store_lookup_eq.
  split_and!; [|done|].
  - unfold set_prop. rewrite Hl. unfold entity_set. by rewrite Hp, Hw, Ht.
  - intros Hread Hpers Hrt.
    destruct (toArray_entity st' l e' Hl' Hnd Hrt) as (r & Hr & Hin & _).
    destruct (Hin name p (schema_get_elem _ _ _ Hp) Hpers) as (u & Hu & Hru).
    exists r, u. split_and!; [done| |done].
    unfold entity_get in Hu. simpl in Hu. rewrite Hp, Hread in Hu.
    unfold record_get in Hu. simpl in Hu. by rewrite lookup_insert_eq in Hu.
Qed.

Lemma write_marks_dirty_witness :
  let st := fst (create empty_state User (Some (user_data (VNum 7) "Ann"))) in
  ∃ st', set_prop st 0 "name" (VStr "Bob") = (st', Ok tt)
    ∧ ∃ r, toArray st' 0 = Ok r ∧ r !! "name" = Some (VStr "Bob").
Proof.
  intros st.
  destruct (write_marks_dirty st 0
              {| e_class := User;
                 values := <["name" := VStr "Ann"]> (<["id" := VNum 7]> ∅);
                 raw := <["name" := VStr "Ann"]> (<["id" := VNum 7]> ∅);
                 dirty := false; e_own := ∅ |}
              "name" identity_property (VStr "Bob") (VStr "Bob"))
    as (Hset & _ & Harr).
  - reflexivity.
  - apply NoDup_two. discriminate.
  - reflexivity.
  - reflexivity.
  - reflexivity.
  - eexists. split; [exact Hset|].
    destruct Harr as (r & u & Hr & Hu & Hru); [reflexivity|reflexivity| |].
    + intros n q Hin _. simpl in Hin.
      apply elem_of_cons in Hin as [[= _ ->]|Hin];
        [|apply list_elem_of_singleton in Hin as [= _ ->]]; simpl; eauto.
    + exists r. split; [exact Hr|]. simpl in Hu. injection Hu as <-. exact Hru.
Defined.

(** C8, as stated, fails for a writable property that is not readable: the
    write is stored, and [toArray] still passes undefined on. *)
Lemma write_not_reflected_counterexample :
  let st := fst (create empty_state Login
                   (Some (<["id" := VNum 1]> (<["password" := VStr "a"]> ∅)))) in
  let st' := fst (set_prop st 0 "password" (VStr "b")) in
  snd (set_prop st 0 "password" (VStr "b")) = Ok tt
  ∧ ∃ r, toArray st' 0 = Ok r ∧ r !! "password" = Some VUndef.
Proof. split; [by vm_compute|]. eexists. split; [by vm_compute|]. by vm_compute. Qed.

(** ** Identity uniqueness *)

Lemma loose_eq_num (a : Z) (K : value) :
  loose_eq (VNum a) K = true → to_number K = Some a.
Proof.
  destruct K; simpl; try discriminate.
  - destruct b; intros H; apply Z.eqb_eq in H; by subst.
  - intros H. apply Z.eqb_eq in H. by subst.
  - destruct (string_to_number s); [|discriminate].
    intros H. apply Z.eqb_eq in H. by subst.
Qed.

Lemma loose_eq_num_refl (a : Z) : loose_eq (VNum a) (VNum a) = true.
Proof. simpl. apply Z.eqb_refl. Qed.

Lemma NoDup_fmap_eq {A B : Type} (f : A → B) (l : list A) (x y : A) :
  NoDup (f <$> l) → x ∈ l → y ∈ l → f x = f y → x = y.
Proof.
  induction l as [|a l IH]; simpl; intros Hnd Hx Hy Hf.
  - by apply not_elem_of_nil in Hx.
  - apply NoDup_cons in Hnd as [Ha Hnd].
    apply elem_of_cons in Hx as [->|Hx]; apply elem_of_cons in Hy as [->|Hy]; auto.
    + exfalso. apply Ha. rewrite Hf. by apply list_elem_of_fmap_2.
    + exfalso. apply Ha. rewrite <- Hf. by apply list_elem_of_fmap_2.
Qed.

Lemma numeric_inv_unique (st : state) (T : EntityClass) (K : value) (l1 l2 : loc) :
  numeric_inv st → tracked_for st T K l1 → tracked_for st T K l2 → l1 = l2.
Proof.
  intros (_ & Hnum & _ & Hnd) [Hin1 He1] [Hin2 He2].
  destruct (Hnum _ _ Hin1) as [a Ha]. destruct (Hnum _ _ Hin2) as [b Hb].
  rewrite Ha in He1. rewrite Hb in He2.
  apply loose_eq_num in He1. apply loose_eq_num in He2.
  apply (NoDup_fmap_eq (id_at st) (bucket st (cls_name T))); try done.
  congruence.
Qed.

Lemma numeric_inv_empty : numeric_inv empty_state.
Proof.
  split_and!.
  - apply wf_empty.
  - intros name l H. by apply not_elem_of_nil in H.
  - intros name l e H. by apply not_elem_of_nil in H.
  - intros name. apply NoDup_nil_2.
Qed.

Lemma bucket_elem_lookup (st : state) (name : string) (l : loc) :
  l ∈ bucket st name → ∃ map, objectMap st !! name = Some map ∧ l ∈ map.
Proof.
  unfold bucket. destruct (objectMap st !! name) as [map|]; simpl; [eauto|].
  intros H. by apply not_elem_of_nil in H.
Qed.

(** Changing objects in place keeps the invariant when the ids stay. *)
Lemma numeric_inv_same_ids (st st' : state) :
  numeric_inv st →
  objectMap st' = objectMap st →
  length (heap st) ≤ length (heap st') →
  (∀ name l, l ∈ bucket st name → id_at st' l = id_at st l) →
  (∀ name l e, l ∈ bucket st name → heap st' !! l = Some (OEntity e) →
     numeric_id_class (e_class e)) →
  numeric_inv st'.
Proof.
  intros (Hwf & Hnum & Hcls & Hnd) Hmap Hlen Hids Hcls'.
  assert (∀ name, bucket st' name = bucket st name) as Hb
    by (intros name; unfold bucket; by rewrite Hmap).
  split_and!.
  - intros name map l Hm Hin. rewrite Hmap in Hm. specialize (Hwf _ _ _ Hm Hin). lia.
  - intros name l Hin. rewrite Hb in Hin. rewrite (Hids _ _ Hin). eauto.
  - intros name l e Hin. rewrite Hb in Hin. eauto.
  - intros name. rewrite Hb.
    rewrite (list_fmap_ext (id_at st') (id_at st) (bucket st name)); [done|].
    intros i l Hl. apply (Hids name). by eapply list_elem_of_lookup_2.
Qed.

Lemma numeric_inv_ext (st st' : state) :
  numeric_inv st → heap st' = heap st → objectMap st' = objectMap st → numeric_inv st'.
Proof.
  intros Hinv Hh Hm. apply (numeric_inv_same_ids st st'); try done.
  - by rewrite Hh.
  - intros name l _. unfold id_at. by rewrite Hh.
  - intros name l e Hin. rewrite Hh. destruct Hinv as (_ & _ & Hcls & _). eauto.
Qed.

(** Appending a new object with an unused numeric id keeps the invariant. *)
Lemma numeric_inv_with_object (st : state) (name : string) (o : obj)
    (pcs : gmap string EntityClass) (n : Z) :
  numeric_inv st →
  obj_id o = VNum n →
  (∀ e, o = OEntity e → numeric_id_class (e_class e)) →
  find_id st (VNum n) (bucket st name) = None →
  numeric_inv (with_object st name o pcs).
Proof.
  intros (Hwf & Hnum & Hcls & Hnd) Hid Hocls Hfind.
  set (st' := with_object st name o pcs).
  assert (∀ name', name' ≠ name → bucket st' name' = bucket st name') as Hbne.
  { intros name' Hne. unfold bucket, st', with_object. simpl.
    by rewrite lookup_insert_ne. }
  assert (bucket st' name = bucket st name ++ [length (heap st)]) as Hbeq.
  { unfold bucket at 1, st', with_object. simpl. by rewrite lookup_insert_eq. }
  assert (∀ name' l, l ∈ bucket st name' → id_at st' l = id_at st l) as Hold.
  { intros name' l Hin. apply (id_at_old st st' l o eq_refl).
    by apply (wf_bucket _ _ _ Hwf) in Hin. }
  assert (id_at st' (length (heap st)) = VNum n) as Hnew
    by (rewrite (id_at_fresh st st' o eq_refl); done).
  assert (∀ name' l, l ∈ bucket st' name' →
            l ∈ bucket st name' ∨ (name' = name ∧ l = length (heap st))) as Hsplit.
  { intros name' l Hin. destruct (decide (name' = name)) as [->|Hne].
    - rewrite Hbeq in Hin. apply elem_of_app in Hin as [?|Hin]; [by left|].
      apply list_elem_of_singleton in Hin. by right.
    - rewrite Hbne in Hin by done. by left. }
  split_and!.
  - intros name' map l Hm Hin.
    assert (l ∈ bucket st' name') as Hin' by (unfold bucket; by rewrite Hm).
    unfold st', with_object. simpl. rewrite length_app. simpl.
    destruct (Hsplit _ _ Hin') as [Hin0|[_ ->]]; [|lia].
    apply (wf_bucket _ _ _ Hwf) in Hin0. lia.
  - intros name' l Hin. destruct (Hsplit _ _ Hin) as [Hin0|[_ ->]]; [|eauto].
    rewrite (Hold _ _ Hin0). eauto.
  - intros name' l e Hin Hl. destruct (Hsplit _ _ Hin) as [Hin0|[_ ->]].
    + apply (Hcls name' l e Hin0).
      pose proof (wf_bucket _ _ _ Hwf Hin0) as Hlt.
      unfold st', with_object in Hl. simpl in Hl. by rewrite lookup_app_l in Hl.
    + unfold st', with_object in Hl. simpl in Hl. rewrite lookup_fresh in Hl.
      apply Hocls. congruence.
  - intros name'. destruct (decide (name' = name)) as [->|Hne].
    + rewrite Hbeq, fmap_app. simpl. rewrite Hnew.
      rewrite (list_fmap_ext (id_at st') (id_at st) (bucket st name)).
      * apply NoDup_app. split_and!; [done| |apply NoDup_singleton].
        intros v Hv Hv'. apply list_elem_of_singleton in Hv' as ->.
        apply list_elem_of_fmap in Hv as (l & Hl & Hin).
        rewrite find_id_None in Hfind. specialize (Hfind l Hin).
        rewrite <- Hl, loose_eq_num_refl in Hfind. discriminate.
      * intros i l Hl. apply (Hold name). by eapply list_elem_of_lookup_2.
    + rewrite Hbne by done.
      rewrite (list_fmap_ext (id_at st') (id_at st) (bucket st name')); [done|].
      intros i l Hl. apply (Hold name'). by eapply list_elem_of_lookup_2.
Qed.

Lemma getProxyClass_state (st st1 : state) (c pc : EntityClass) :
  getProxyClass st c = (st1, pc) →
  heap st1 = heap st ∧ objectMap st1 = objectMap st.
Proof. intros H. pose proof (getProxyClass_heap st c) as Hs. by rewrite H in Hs. Qed.

Lemma createProxy_throws (st : state) (c : EntityClass) (id : value) (err : error) :
  body (snd (getProxyClass st c)) ∅ = Throw err →
  createProxy st c id = (fst (getProxyClass st c), Throw err).
Proof.
  intros H. unfold createProxy, factory_createProxy, new_Proxy.
  destruct (getProxyClass st c) as [st1 pc]. simpl in *. by rewrite H.
Qed.

Lemma getReference_numeric_inv (st : state) (c : EntityClass) (n : Z) :
  numeric_inv st → numeric_inv (fst (getReference st c (VNum n))).
Proof.
  intros Hinv. unfold getReference.
  rewrite getFromObjectMap_defined by done.
  destruct (find_id st (VNum n) (bucket st (cls_name c))) as [l|] eqn:Hfind; [done|].
  destruct (body (snd (getProxyClass st c)) ∅) as [own|err] eqn:Hbody.
  - rewrite (createProxy_ok _ _ _ _ (proj1 Hinv) Hbody). simpl.
    by apply (numeric_inv_with_object st (cls_name c) _ _ n).
  - rewrite (createProxy_throws _ _ _ _ Hbody). simpl.
    destruct (getProxyClass_heap st c) as [Hh Hm]. by apply (numeric_inv_ext st).
Qed.

Lemma update_loop_sets (sch : Schema) (data : record) (e e' : Entity) (name : string) :
  update_loop sch data e = (e', Ok tt) → name ∈ sch.*1 →
  ∃ p v, (name, p) ∈ sch
    ∧ call_transform p (record_get data name) = Ok v
    ∧ values e' !! name = Some v.
Proof.
  revert e. induction sch as [|[n q] sch IH]; simpl; intros e H Hin.
  - by apply not_elem_of_nil in Hin.
  - destruct (loadPropertyValue e n q data) as [e1 r1] eqn:E.
    apply loadPropertyValue_inv in E as (_ & _ & _ & _ & Hv).
    destruct r1 as [[]|err]; [|discriminate]. destruct Hv as (v & Hv & Hvals).
    destruct (decide (name = n)) as [->|Hne].
    + destruct (update_loop_inv _ _ _ _ _ H) as (_ & _ & _ & Hcases).
      destruct (Hcases n) as [Heq|(p & w & Hp & Hw & Hs)].
      * exists q, v. split_and!; [apply list_elem_of_here|done|].
        by rewrite Heq, Hvals, lookup_insert_eq.
      * exists p, w. split_and!; [by apply list_elem_of_further|done..].
    + apply elem_of_cons in Hin as [?|Hin]; [done|].
      destruct (IH _ H Hin) as (p & w & Hp & Hw & Hs).
      exists p, w. split_and!; [by apply list_elem_of_further|done..].
Qed.

Lemma numeric_entity_id (e : Entity) :
  numeric_id_class (e_class e) → entity_get e "id" = record_get (values e) "id".
Proof.
  intros [(p & Hp & Hr) _]. unfold entity_get. by rewrite Hp, Hr.
Qed.

Lemma update_numeric_inv (st : state) (name : string) (existing : loc) (data : record)
    (n : Z) :
  numeric_inv st →
  existing ∈ bucket st name →
  id_at st existing = VNum n →
  record_get data "id" = VNum n →
  numeric_inv (fst (update st existing data)).
Proof.
  intros Hinv Hin Hid Hdata. unfold update.
  destruct (heap st !! existing) as [[e0|p]|] eqn:E; [| |done].
  2: { by destruct (schema (p_class p)). }
  destruct (update_loop (schema (e_class e0)) data e0) as [e' r] eqn:Hloop. simpl.
  pose proof (update_loop_inv _ _ _ _ _ Hloop) as (Hc & _ & _ & Hcases).
  pose proof Hinv as (_ & _ & Hcls & _).
  pose proof (Hcls _ _ _ Hin E) as Hnumcls.
  assert (obj_id (OEntity e') = VNum n) as Hid'.
  { simpl. rewrite numeric_entity_id by by rewrite Hc.
    unfold id_at in Hid. rewrite E in Hid. simpl in Hid.
    rewrite numeric_entity_id in Hid by done.
    destruct (Hcases "id") as [Heq|(p & v & Hp & Hv & Hs)].
    - unfold record_get in *. by rewrite Heq.
    - rewrite Hdata in Hv. destruct Hnumcls as [_ Hpres].
      rewrite (Hpres _ _ _ Hp Hv) in Hs. unfold record_get. by rewrite Hs. }
  apply (numeric_inv_same_ids st); try done.
  - unfold store. simpl. by rewrite length_insert.
  - intros name' l Hl. destruct (decide (l = existing)) as [->|Hne].
    + unfold id_at in *. rewrite (store_lookup_eq _ _ _ _ E). rewrite E in Hid |- *.
      congruence.
    + unfold id_at. by rewrite store_lookup_ne.
  - intros name' l e Hl. destruct (decide (l = existing)) as [->|Hne].
    + rewrite (store_lookup_eq _ _ _ _ E). intros [= <-]. by rewrite Hc.
    + rewrite store_lookup_ne by done. destruct Hinv as (_ & _ & Hcls' & _). eauto.
Qed.

Lemma alloc_numeric_inv (st : state) (o : obj) :
  numeric_inv st → numeric_inv (fst (alloc st o)).
Proof.
  intros Hinv. pose proof Hinv as (Hwf & _ & Hcls & _).
  apply (numeric_inv_same_ids st); try done.
  - simpl. rewrite length_app. lia.
  - intros name l Hin. apply (id_at_old st (fst (alloc st o)) l o eq_refl).
    by apply (wf_bucket _ _ _ Hwf) in Hin.
  - intros name l e Hin. simpl.
    rewrite lookup_app_l by by apply (wf_bucket _ _ _ Hwf) in Hin. eauto.
Qed.

Lemma store_proxy_numeric_inv (st : state) (l : loc) (p p' : ProxyInstance) :
  numeric_inv st → heap st !! l = Some (OProxy p) → p_id p' = p_id p →
  numeric_inv (store st l (OProxy p')).
Proof.
  intros Hinv Hl Hid. pose proof Hinv as (_ & _ & Hcls & _).
  apply (numeric_inv_same_ids st); try done.
  - unfold store. simpl. by rewrite length_insert.
  - intros name l' _. unfold id_at. destruct (decide (l' = l)) as [->|Hne].
    + rewrite (store_lookup_eq _ _ _ _ Hl), Hl. done.
    + by rewrite store_lookup_ne.
  - intros name l' e Hin. destruct (decide (l' = l)) as [->|Hne].
    + by rewrite (store_lookup_eq _ _ _ _ Hl).
    + rewrite store_lookup_ne by done. eauto.
Qed.

Lemma build_entity_numeric_id (c : EntityClass) (data : record) (e : Entity) (n : Z) :
  numeric_id_class c →
  record_get data "id" = VNum n →
  build_entity c data = Ok e →
  e_class e = c ∧ record_get (values e) "id" = VNum n.
Proof.
  intros [(p & Hp & _) Hpres] Hdata Hb.
  destruct (build_entity_inv _ _ _ Hb) as (Hc & _).
  split; [done|]. unfold build_entity in Hb. apply defineProperties_update_loop in Hb.
  destruct (update_loop_sets _ _ _ _ "id" Hb) as (q & v & Hq & Hv & Hs).
  { apply list_elem_of_fmap. exists ("id", p). split; [done|]. by apply schema_get_elem. }
  rewrite Hdata in Hv. rewrite (Hpres _ _ _ Hq Hv) in Hs.
  unfold record_get. by rewrite Hs.
Qed.

Lemma create_numeric_inv (st : state) (c : EntityClass) (data : option record) (n : Z) :
  numeric_inv st →
  numeric_id_class c →
  record_get (default ∅ data) "id" = VNum n →
  numeric_inv (fst (create st c data)).
Proof.
  intros Hinv Hcls Hdata. unfold create.
  destruct (build_entity c (default ∅ data)) as [ent|err] eqn:Hb; [|done].
  rewrite Hdata. rewrite getFromObjectMap_defined by done.
  destruct (find_id st (VNum n) (bucket st (cls_name c))) as [l|] eqn:Hfind.
  - apply find_id_Some in Hfind as (pre & post & Hbk & Heq & _).
    assert (l ∈ bucket st (cls_name c)) as Hin.
    { rewrite Hbk. apply elem_of_app. right. apply list_elem_of_here. }
    assert (id_at st l = VNum n) as Hid.
    { destruct Hinv as (_ & Hnum & _). destruct (Hnum _ _ Hin) as [m Hm].
      rewrite Hm in Heq. apply loose_eq_num in Heq. simpl in Heq. congruence. }
    destruct (getProxyClass st c) as [st1 pc] eqn:Hg.
    destruct (getProxyClass_state _ _ _ _ Hg) as [Hh Hm].
    assert (numeric_inv st1) as Hinv1 by by apply (numeric_inv_ext st).
    destruct (instanceof_proxy st1 l c) eqn:Hi; simpl.
    + unfold instanceof_proxy in Hi.
      destruct (heap st1 !! l) as [[e0|p]|] eqn:E; try discriminate.
      rewrite (lookup_app_l (heap st1)) by by apply lookup_lt_Some in E.
      rewrite E. simpl.
      pose proof (alloc_numeric_inv st1 (OEntity ent) Hinv1) as Hinv2.
      assert (heap (fst (alloc st1 (OEntity ent))) !! l = Some (OProxy p)) as E2.
      { simpl. rewrite lookup_app_l; [done|]. by apply lookup_lt_Some in E. }
      pose proof (store_proxy_numeric_inv _ l p
                    {| p_key := p_key p; p_class := p_class p; p_id := p_id p;
                       object := Some (length (heap st1)); p_own := p_own p |}
                    Hinv2 E2 eq_refl) as Hinv3.
      destruct (call_constructor c (p_own p)) as [own|err]; simpl; [|exact Hinv3].
      apply (store_proxy_numeric_inv _ l
               {| p_key := p_key p; p_class := p_class p; p_id := p_id p;
                  object := Some (length (heap st1)); p_own := p_own p |});
        [exact Hinv3| |reflexivity].
      by apply (store_lookup_eq _ _ _ _ E2).
    + assert (numeric_inv (fst (update st1 l (default ∅ data)))) as Hinv2.
      { apply (update_numeric_inv st1 (cls_name c) l _ n); try done.
        - unfold bucket. rewrite Hm. exact Hin.
        - unfold id_at. rewrite Hh. exact Hid. }
      destruct (update st1 l (default ∅ data)) as [st2 [[]|err]]; exact Hinv2.
  - destruct (call_constructor c (e_own ent)) as [own|err]; [|done].
    destruct (build_entity_numeric_id _ _ _ _ Hcls Hdata Hb) as [Hc Hval].
    assert (fst (let '(st1, l) := alloc st (set_own (OEntity ent) own) in
                 (addToObjectMap st1 c l, Ok l))
            = with_object st (cls_name c) (set_own (OEntity ent) own) (proxyClasses st))
      as ->.
    { simpl. unfold addToObjectMap, with_object, bucket. simpl.
      rewrite bool_decide_eq_false_2; [done|].
      apply (fresh_not_in_bucket st (cls_name c) (proj1 Hinv)). }
    apply (numeric_inv_with_object st (cls_name c) _ _ n); try done.
    + simpl. unfold entity_get. simpl. destruct Hcls as [(p & Hp & Hr) _].
      by rewrite Hc, Hp, Hr.
    + intros e [= <-]. simpl. by rewrite Hc.
Qed.

Lemma run_numeric_inv (calls : list call) (st : state) :
  numeric_inv st → Forall numeric_call calls → numeric_inv (run st calls).
Proof.
  revert st. induction calls as [|c calls IH]; simpl; intros st Hinv Hall; [done|].
  apply Forall_cons in Hall as [Hc Hall]. apply IH; [|done].
  destruct c as [cls data|cls id]; simpl in *.
  - destruct Hc as [Hcls [n Hn]]. by apply (create_numeric_inv _ _ _ n).
  - destruct Hc as [n ->]. by apply getReference_numeric_inv.
Qed.

(** The case of numeric ids: after any sequence of [create] and
    [getReference] calls on an empty manager in which every id is a number
    and every constructed class reads its id from a readable [id] property
    whose transform returns numbers unchanged, at most one tracked object
    has an id equal to [K], for every class and every [K]. *)
Theorem identity_unique_numeric (calls : list call) (T : EntityClass) (K : value)
    (l1 l2 : loc) :
  Forall numeric_call calls →
  tracked_for (run empty_state calls) T K l1 →
  tracked_for (run empty_state calls) T K l2 →
  l1 = l2.
Proof.
  intros Hall. apply numeric_inv_unique.
  apply run_numeric_inv; [apply numeric_inv_empty|done].
Qed.

(** With ids of mixed types [==] is not transitive, and two tracked
    objects can end up with the same id: the entity made for [""] is found
    for [0] and then for ["0"], and takes over each id in turn. *)
Lemma identity_mixed_ids_example :
  let st := run empty_state mixed_calls in
  bucket st "User" = [0; 1] ∧ id_at st 0 = VStr "0" ∧ id_at st 1 = VStr "0".
Proof. by vm_compute. Qed.

Lemma numeric_id_class_User : numeric_id_class User.
Proof.
  split.
  - exists identity_property. by split.
  - intros p n v Hin Hv. simpl in Hin.
    apply elem_of_cons in Hin as [[= ->]|Hin].
    + simpl in Hv. by injection Hv as <-.
    + apply list_elem_of_singleton in Hin. discriminate.
Qed.

Lemma identity_unique_numeric_witness :
  Forall numeric_call sample_calls
  ∧ tracked_for (run empty_state sample_calls) User (VStr "7") 0
  ∧ 0 = 0.
Proof.
  assert (Forall numeric_call sample_calls) as Hcalls.
  { repeat apply Forall_cons_2; try apply Forall_nil_2; simpl;
      try (split; [apply numeric_id_class_User|]); eexists; reflexivity. }
  assert (tracked_for (run empty_state sample_calls) User (VStr "7") 0) as Ht.
  { split; [|reflexivity]. vm_compute. apply list_elem_of_here. }
  split; [exact Hcalls|]. split; [exact Ht|].
  exact (identity_unique_numeric sample_calls User (VStr "7") 0 0 Hcalls Ht Ht).
Defined.

(** C1, as stated, fails for the undefined id: two [getReference] calls
    leave two tracked proxies with that id. *)
Lemma identity_undefined_counterexample :
  let st := run empty_state [GetReference User VUndef; GetReference User VUndef] in
  getAll st User = [0; 1]
  ∧ id_at st 0 = VUndef ∧ id_at st 1 = VUndef
  ∧ tracked_for st User VUndef 0 ∧ tracked_for st User VUndef 1 ∧ 0 ≠ 1.
Proof.
  split_and!; [by vm_compute..|split; [|reflexivity]|split; [|reflexivity]|done];
    vm_compute.
  - apply list_elem_of_here.
  - apply list_elem_of_further, list_elem_of_here.
Qed.

(** * Further properties of the manager and the factory *)

(** ** The object map *)

Lemma addToObjectMap_bucket (st : state) (c : EntityClass) (l : loc) (name : string) :
  bucket (addToObjectMap st c l) name
  = if decide (name = cls_name c)
    then (if bool_decide (l ∈ bucket st name) then bucket st name
          else bucket st name ++ [l])
    else bucket st name.
Proof.
  unfold addToObjectMap. unfold bucket at 1. simpl.
  destruct (decide (name = cls_name c)) as [->|Hne].
  - by rewrite lookup_insert_eq.
  - by rewrite lookup_insert_ne.
Qed.

(** X1. [addToObjectMap] is idempotent: after it the object is in the
    class's bucket, a second insertion of the same object changes nothing,
    inserting an object already present keeps the bucket as it is, and the
    buckets of other names and the heap are never touched. *)
Theorem addToObjectMap_idempotent (st : state) (c : EntityClass) (l : loc) :
  l ∈ getAll (addToObjectMap st c l) c
  ∧ addToObjectMap (addToObjectMap st c l) c l = addToObjectMap st c l
  ∧ (l ∈ getAll st c → getAll (addToObjectMap st c l) c = getAll st c)
  ∧ (∀ c', cls_name c' ≠ cls_name c →
       getAll (addToObjectMap st c l) c' = getAll st c')
  ∧ heap (addToObjectMap st c l) = heap st.
Proof.
  assert (l ∈ bucket (addToObjectMap st c l) (cls_name c)) as Hin.
  { rewrite addToObjectMap_bucket. rewrite decide_True by done.
    case_bool_decide; [done|]. apply elem_of_app. right. apply list_elem_of_here. }
  split_and!.
  - exact Hin.
  - unfold addToObjectMap at 1. rewrite bool_decide_eq_true_2 by done.
    unfold addToObjectMap at 3. simpl. f_equal.
    unfold addToObjectMap at 2. simpl. rewrite insert_insert_eq.
    unfold bucket at 1. unfold addToObjectMap. simpl. by rewrite lookup_insert_eq.
  - intros H. unfold getAll. rewrite addToObjectMap_bucket, decide_True by done.
    by rewrite bool_decide_eq_true_2.
  - intros c' Hne. unfold getAll. by rewrite addToObjectMap_bucket, decide_False.
  - reflexivity.
Qed.

(** ** What no call undoes *)

Lemma same_kind_refl (o : obj) : same_kind o o.
Proof. by destruct o. Qed.

Lemma same_kind_trans (o1 o2 o3 : obj) :
  same_kind o1 o2 → same_kind o2 o3 → same_kind o1 o3.
Proof.
  destruct o1, o2, o3; simpl; try done.
  - congruence.
  - intros (-> & -> & ->) (-> & -> & ->). done.
Qed.

Lemma extends_refl (st : state) : extends st st.
Proof.
  split_and!; [done| |done]. intros l o H. exists o. split; [done|apply same_kind_refl].
Qed.

Lemma extends_trans (st1 st2 st3 : state) :
  extends st1 st2 → extends st2 st3 → extends st1 st3.
Proof.
  intros (Hb1 & Hh1 & Hp1) (Hb2 & Hh2 & Hp2). split_and!.
  - intros name. destruct (Hb1 name) as [k1 H1]. destruct (Hb2 name) as [k2 H2].
    exists (k1 ++ k2). by rewrite H2, H1, app_assoc.
  - intros l o H. destruct (Hh1 _ _ H) as (o2 & H2 & Hk2).
    destruct (Hh2 _ _ H2) as (o3 & H3 & Hk3). exists o3. split; [done|].
    by eapply same_kind_trans.
  - auto.
Qed.

Lemma getProxyClass_extends (st : state) (c : EntityClass) :
  extends st (fst (getProxyClass st c)).
Proof.
  destruct (getProxyClass_heap st c) as [Hh Hm]. split_and!.
  - intros name. unfold bucket. by rewrite Hm.
  - intros l o H. rewrite Hh. exists o. split; [done|apply same_kind_refl].
  - intros k c0 H. unfold getProxyClass.
    destruct (proxyClasses st !! proxy_key c) as [c1|] eqn:E; simpl; [done|].
    rewrite lookup_insert_ne; [done|]. intros <-. congruence.
Qed.

Lemma alloc_extends (st : state) (o : obj) : extends st (fst (alloc st o)).
Proof.
  split_and!; [done| |done]. intros l o0 H. simpl. exists o0.
  split; [|apply same_kind_refl]. rewrite lookup_app_l; [done|].
  by apply lookup_lt_Some in H.
Qed.

Lemma store_extends (st : state) (l : loc) (o o' : obj) :
  heap st !! l = Some o → same_kind o o' → extends st (store st l o').
Proof.
  intros Hl Hk. split_and!; [done| |done]. intros l0 o0 H.
  destruct (decide (l0 = l)) as [->|Hne].
  - exists o'. split; [by apply (store_lookup_eq _ _ _ o)|]. congruence.
  - exists o0. split; [by rewrite store_lookup_ne|apply same_kind_refl].
Qed.

Lemma addToObjectMap_extends (st : state) (c : EntityClass) (l : loc) :
  extends st (addToObjectMap st c l).
Proof.
  split_and!; [| |done].
  - intros name. rewrite addToObjectMap_bucket.
    destruct (decide (name = cls_name c)); [|done].
    case_bool_decide; [done|]. by apply prefix_app_r.
  - intros l0 o H. exists o. split; [done|apply same_kind_refl].
Qed.

Lemma update_extends (st : state) (l : loc) (data : record) :
  extends st (fst (update st l data)).
Proof.
  unfold update. destruct (heap st !! l) as [[e|p]|] eqn:E.
  - destruct (update_loop (schema (e_class e)) data e) as [e' r] eqn:Hloop. simpl.
    apply (store_extends _ _ (OEntity e)); [done|]. simpl.
    by destruct (update_loop_inv _ _ _ _ _ Hloop) as (? & _).
  - destruct (schema (p_class p)); apply extends_refl.
  - apply extends_refl.
Qed.

Lemma getReference_extends (st : state) (c : EntityClass) (id : value) :
  extends st (fst (getReference st c id)).
Proof.
  unfold getReference. destruct (getFromObjectMap st c id); [apply extends_refl|].
  unfold createProxy, factory_createProxy.
  pose proof (getProxyClass_extends st c) as H1.
  destruct (getProxyClass st c) as [st1 pc]. simpl in H1.
  destruct (new_Proxy (proxy_key c) pc id) as [p|err]; [|done]. simpl.
  eapply extends_trans; [exact H1|].
  eapply extends_trans; [apply (alloc_extends st1 (OProxy p))|].
  apply (addToObjectMap_extends (fst (alloc st1 (OProxy p))) c).
Qed.

Lemma create_extends (st : state) (c : EntityClass) (data : option record) :
  extends st (fst (create st c data)).
Proof.
  unfold create.
  destruct (build_entity c (default ∅ data)) as [ent|err]; [|apply extends_refl].
  destruct (getFromObjectMap st c (record_get (default ∅ data) "id")) as [l|].
  - pose proof (getProxyClass_extends st c) as H1.
    destruct (getProxyClass st c) as [st1 pc]. simpl in H1.
    eapply extends_trans; [exact H1|].
    destruct (instanceof_proxy st1 l c) eqn:Hi; simpl.
    + pose proof (alloc_extends st1 (OEntity ent)) as H2. simpl in H2.
      destruct ((heap st1 ++ [OEntity ent]) !! l) as [o|] eqn:E; [|exact H2].
      assert (∃ p, o = OProxy p) as [p ->].
      { unfold instanceof_proxy in Hi.
        destruct (heap st1 !! l) as [[e0|p]|] eqn:E1; try discriminate.
        rewrite (lookup_app_l (heap st1)) in E by by apply lookup_lt_Some in E1.
        exists p. congruence. }
      pose proof (store_extends (fst (alloc st1 (OEntity ent))) l (OProxy p)
                    (set_object (OProxy p) (length (heap st1))) E) as H3.
      simpl in H3. specialize (H3 (conj eq_refl (conj eq_refl eq_refl))).
      set (st2 := fst (alloc st1 (OEntity ent))) in *.
      set (o1 := set_object (OProxy p) (length (heap st1))) in *.
      simpl. destruct (call_constructor c (p_own p)) as [own|err]; simpl.
      * change (extends st1 (store (store st2 l o1) l (set_own o1 own))).
        eapply extends_trans; [exact H2|]. eapply extends_trans; [exact H3|].
        apply (store_extends (store st2 l o1) l o1 (set_own o1 own));
          [by apply (store_lookup_eq _ _ _ (OProxy p))|done].
      * change (extends st1 (store st2 l o1)).
        eapply extends_trans; [exact H2|exact H3].
    + pose proof (update_extends st1 l (default ∅ data)) as H2.
      destruct (update st1 l (default ∅ data)) as [st2 [[]|err]]; exact H2.
  - destruct (call_constructor c (e_own ent)) as [own|err]; [|apply extends_refl].
    simpl. eapply extends_trans; [apply (alloc_extends st (set_own (OEntity ent) own))|].
    apply (addToObjectMap_extends (fst (alloc st (set_own (OEntity ent) own))) c).
Qed.

Lemma run_call_exec (st : state) (c : call) : run_call st c = fst (exec_call st c).
Proof. by destruct c. Qed.

Lemma run_extends (calls : list call) (st : state) : extends st (run st calls).
Proof.
  revert st. induction calls as [|c calls IH]; simpl; intros st; [apply extends_refl|].
  eapply extends_trans; [|apply IH].
  destruct c; simpl; [apply create_extends|apply getReference_extends].
Qed.

Lemma addToObjectMap_elem (st : state) (c : EntityClass) (l : loc) :
  l ∈ bucket (addToObjectMap st c l) (cls_name c).
Proof.
  rewrite addToObjectMap_bucket, decide_True by done.
  case_bool_decide; [done|]. apply elem_of_app. right. apply list_elem_of_here.
Qed.

Lemma extends_elem (st st' : state) (name : string) (l : loc) :
  extends st st' → l ∈ bucket st name → l ∈ bucket st' name.
Proof.
  intros (Hb & _) Hin. destruct (Hb name) as [k ->]. apply elem_of_app. by left.
Qed.

(** The two ways in which [create] returns a reference. *)
Lemma create_result_cases (st st' : state) (c : EntityClass) (data : option record)
    (l : loc) :
  create st c data = (st', Ok l) →
  getFromObjectMap st c (record_get (default ∅ data) "id") = Some l
  ∨ (getFromObjectMap st c (record_get (default ∅ data) "id") = None
     ∧ l = length (heap st)
     ∧ ∃ o, st' = addToObjectMap (fst (alloc st o)) c l).
Proof.
  unfold create.
  destruct (build_entity c (default ∅ data)) as [ent|err]; [|discriminate].
  destruct (getFromObjectMap st c (record_get (default ∅ data) "id")) as [l0|].
  - destruct (getProxyClass st c) as [st1 pc].
    destruct (instanceof_proxy st1 l0 c); simpl.
    + destruct ((heap st1 ++ [OEntity ent]) !! l0) as [o|]; [|discriminate].
      destruct (call_constructor c (get_own o)); [|discriminate].
      intros [= _ <-]. by left.
    + destruct (update st1 l0 (default ∅ data)) as [st2 [[]|err]]; [|discriminate].
      intros [= _ <-]. by left.
  - destruct (call_constructor c (e_own ent)) as [own|err]; [|discriminate].
    simpl. intros [= <- <-]. right. split_and!; [done|done|]. by eexists.
Qed.

Lemma getReference_result_cases (st st' : state) (c : EntityClass) (id : value) (l : loc) :
  getReference st c id = (st', Ok l) →
  (getFromObjectMap st c id = Some l ∧ st' = st)
  ∨ (getFromObjectMap st c id = None ∧ createProxy st c id = (st', Ok l)).
Proof.
  unfold getReference. destruct (getFromObjectMap st c id) as [l0|].
  - intros [= <- <-]. by left.
  - intros H. by right.
Qed.

Lemma createProxy_elem (st st' : state) (c : EntityClass) (id : value) (l : loc) :
  createProxy st c id = (st', Ok l) → l ∈ bucket st' (cls_name c).
Proof.
  unfold createProxy.
  destruct (factory_createProxy st c id) as [st1 [p|err]]; [|discriminate].
  simpl. intros [= <- <-]. apply addToObjectMap_elem.
Qed.

(** X2. The reference that [create] or [getReference] returns is a member
    of [getAll] for its class in the state the call leaves, and (when the
    tracked locations were allocated before) it is allocated. *)
Theorem returned_reference_tracked (st st' : state) (c : call) (l : loc) :
  wf st →
  exec_call st c = (st', Ok l) →
  l ∈ getAll st' (call_class c) ∧ l < length (heap st').
Proof.
  intros Hwf Hexec.
  assert (l ∈ getAll st' (call_class c)) as Hin.
  { unfold getAll. destruct c as [cls data|cls id]; simpl in *.
    - pose proof (create_extends st cls data) as Hext. rewrite Hexec in Hext.
      destruct (create_result_cases _ _ _ _ _ Hexec) as [Hf|(_ & _ & o & ->)].
      + apply getFromObjectMap_Some in Hf as [_ [Hb _]].
        by apply (extends_elem st).
      + apply addToObjectMap_elem.
    - destruct (getReference_result_cases _ _ _ _ _ Hexec) as [[Hf ->]|[_ Hc]].
      + by apply getFromObjectMap_Some in Hf as [_ [Hb _]].
      + by apply createProxy_elem in Hc. }
  split; [done|].
  assert (wf st') as Hwf'.
  { replace st' with (fst (exec_call st c)) by by rewrite Hexec.
    destruct c; simpl; [by apply create_wf|by apply getReference_wf]. }
  by apply (wf_bucket st' (cls_name (call_class c))).
Qed.

Lemma returned_reference_tracked_witness :
  0 ∈ getAll (run_call empty_state (Construct User (Some (user_data (VNum 7) "Ann")))) User
  ∧ 0 < 1.
Proof.
  exact (returned_reference_tracked empty_state _
           (Construct User (Some (user_data (VNum 7) "Ann"))) 0 wf_empty eq_refl).
Defined.

(** X3. Over any sequence of [create] and [getReference] calls, [getAll]
    of a class only grows, and only at its end: what it returned before is
    a prefix of what it returns after.  Nothing is ever removed or
    reordered. *)
Theorem getAll_only_grows (calls : list call) (st : state) (c : EntityClass) :
  getAll st c `prefix_of` getAll (run st calls) c.
Proof. destruct (run_extends calls st) as (Hb & _). apply Hb. Qed.

(** X4. Over any sequence of calls an object stays at its location and of
    its kind: an entity remains an entity of the same class, a proxy remains
    a proxy of the same proxy class with the same id (resolution never
    swaps the proxy for the entity). *)
Theorem objects_keep_kind (calls : list call) (st : state) (l : loc) (o : obj) :
  heap st !! l = Some o →
  ∃ o', heap (run st calls) !! l = Some o' ∧ same_kind o o'.
Proof. intros H. destruct (run_extends calls st) as (_ & Hh & _). by apply Hh. Qed.

Lemma objects_keep_kind_witness :
  ∃ o', heap (run (fst (getReference empty_state User (VNum 7)))
                [Construct User (Some (user_data (VNum 7) "Ann"))]) !! 0 = Some o'
    ∧ same_kind
        (OProxy {| p_key := "UserProxy"; p_class := User; p_id := VNum 7;
                   object := None; p_own := <["count" := VNum 1]> ∅ |}) o'.
Proof.
  exact (objects_keep_kind [Construct User (Some (user_data (VNum 7) "Ann"))]
           (fst (getReference empty_state User (VNum 7))) 0 _ eq_refl).
Defined.

Lemma getProxyClass_hit (st : state) (c c0 : EntityClass) :
  proxyClasses st !! proxy_key c = Some c0 → getProxyClass st c = (st, c0).
Proof. intros H. unfold getProxyClass. by rewrite H. Qed.

(** X5. A proxy class, once cached under a key, stays cached under it over
    any sequence of calls, and it is the one used from then on: a proxy
    made later for any class with that key closes over the class cached
    first (its schema, its function), not over the class asked for. *)
Theorem proxy_class_cached_once (calls : list call) (st st' : state)
    (c c0 : EntityClass) (id : value) (l : loc) :
  proxyClasses st !! proxy_key c = Some c0 →
  createProxy (run st calls) c id = (st', Ok l) →
  proxyClasses (run st calls) !! proxy_key c = Some c0
  ∧ proxyClasses st' !! proxy_key c = Some c0
  ∧ ∃ p, heap st' !! l = Some (OProxy p)
      ∧ p_class p = c0
      ∧ body c0 ∅ = Ok (p_own p).
Proof.
  intros Hc Hcreate.
  destruct (run_extends calls st) as (_ & _ & Hp). pose proof (Hp _ _ Hc) as Hc'.
  split; [done|].
  pose proof (createProxy_inv _ _ _ _ _ Hcreate) as (own & Hbody & -> & Hheap).
  rewrite (getProxyClass_hit _ _ _ Hc') in Hbody, Hheap. simpl in Hbody, Hheap.
  split.
  - unfold createProxy, factory_createProxy in Hcreate.
    rewrite (getProxyClass_hit _ _ _ Hc') in Hcreate.
    destruct (new_Proxy (proxy_key c) c0 id); [|discriminate].
    simpl in Hcreate. by injection Hcreate as <-.
  - eexists. split; [by rewrite Hheap, lookup_fresh|]. by split.
Qed.

Lemma proxy_class_cached_once_witness :
  ∃ p, heap (fst (createProxy (fst (getReference empty_state User (VNum 7)))
                    Member (VNum 8))) !! 1 = Some (OProxy p)
    ∧ p_class p = User.
Proof.
  destruct (proxy_class_cached_once [] (fst (getReference empty_state User (VNum 7)))
              (fst (createProxy (fst (getReference empty_state User (VNum 7)))
                      Member (VNum 8)))
              Member User (VNum 8) 1 eq_refl eq_refl) as (_ & _ & p & Hp & Hc & _).
  exists p. split; [exact Hp|exact Hc].
Defined.

(** ** Lookup after registration *)

Lemma lookup_new_proxy (st : state) (c : EntityClass) (id : value) (own : record) :
  wf st → id ≠ VUndef → loose_eq id id = true →
  getFromObjectMap st c id = None →
  getFromObjectMap (with_proxy st c id own) c id = Some (length (heap st)).
Proof.
  intros Hwf Hid Hrefl Hnone.
  rewrite getFromObjectMap_defined in Hnone by done.
  rewrite getFromObjectMap_defined by done.
  rewrite bucket_with_proxy, find_id_app.
  - simpl. rewrite (id_at_fresh st (with_proxy st c id own) _ eq_refl). simpl.
    by rewrite Hrefl.
  - intros l Hin. rewrite (id_at_old st (with_proxy st c id own) l _ eq_refl)
      by by apply (wf_bucket _ _ _ Hwf) in Hin.
    rewrite find_id_None in Hnone. by apply Hnone.
Qed.

(** X6. For an id other than undefined that is equal to itself under [==],
    [getReference] is idempotent: asking again in the state it left returns
    the same reference and changes nothing, and [get] for that id now
    returns that reference too. *)
Theorem getReference_idempotent (st st1 : state) (c : EntityClass) (id : value) (l : loc) :
  wf st →
  id ≠ VUndef →
  loose_eq id id = true →
  getReference st c id = (st1, Ok l) →
  getReference st1 c id = (st1, Ok l) ∧ get st1 c id = (st1, Ok l).
Proof.
  intros Hwf Hid Hrefl Href.
  assert (getFromObjectMap st1 c id = Some l) as Hfind.
  { destruct (getReference_result_cases _ _ _ _ _ Href) as [[Hf ->]|[Hf Hc]]; [done|].
    pose proof (createProxy_inv _ _ _ _ _ Hc) as (own & Hbody & -> & _).
    rewrite (createProxy_ok _ _ _ _ Hwf Hbody) in Hc. injection Hc as <-.
    by apply lookup_new_proxy. }
  unfold getReference, get. by rewrite Hfind.
Qed.

Lemma getReference_idempotent_witness :
  let st1 := fst (getReference empty_state User (VStr "a7")) in
  getReference st1 User (VStr "a7") = (st1, Ok 0) ∧ get st1 User (VStr "a7") = (st1, Ok 0).
Proof.
  intros st1.
  apply (getReference_idempotent empty_state st1 User (VStr "a7") 0 wf_empty);
    [discriminate|reflexivity|reflexivity].
Defined.

(** X17. [getReference] throws only when the lookup misses and the class
    function, run on the new proxy, throws; the error is that function's,
    and no object has been allocated or registered. *)
Theorem getReference_fails_in_class_function (st st' : state) (c : EntityClass)
    (id : value) (err : error) :
  getReference st c id = (st', Throw err) →
  getFromObjectMap st c id = None
  ∧ body (snd (getProxyClass st c)) ∅ = Throw err
  ∧ heap st' = heap st
  ∧ objectMap st' = objectMap st.
Proof.
  unfold getReference. destruct (getFromObjectMap st c id) as [l|]; [discriminate|].
  unfold createProxy, factory_createProxy, new_Proxy.
  destruct (getProxyClass_heap st c) as [Hh Hm].
  destruct (getProxyClass st c) as [st1 pc]. simpl in *.
  destruct (body pc ∅) as [own|e]; [discriminate|].
  intros [= <- <-]. done.
Qed.

Lemma getReference_fails_in_class_function_witness :
  body Broken ∅ = Throw (Raised "no instances")
  ∧ heap (fst (getReference empty_state Broken (VNum 1))) = [].
Proof.
  destruct (getReference_fails_in_class_function empty_state
              (fst (getReference empty_state Broken (VNum 1))) Broken (VNum 1)
              (Raised "no instances") eq_refl) as (_ & Hb & Hh & _).
  split; [exact Hb|exact Hh].
Defined.

Lemma create_fresh_state (st st' : state) (c : EntityClass) (data : option record)
    (l : loc) :
  getFromObjectMap st c (record_get (default ∅ data) "id") = None →
  create st c data = (st', Ok l) →
  ∃ ent own,
    build_entity c (default ∅ data) = Ok ent
    ∧ call_constructor c (e_own ent) = Ok own
    ∧ l = length (heap st)
    ∧ st' = addToObjectMap (fst (alloc st (set_own (OEntity ent) own))) c (length (heap st)).
Proof.
  intros Hnone. unfold create. rewrite Hnone.
  destruct (build_entity c (default ∅ data)) as [ent|err] eqn:Hb; [|discriminate].
  destruct (call_constructor c (e_own ent)) as [own|err] eqn:Hh; [|discriminate].
  simpl. intros [= <- <-]. by exists ent, own.
Qed.

(** X14. Data without an id (or no data at all) never matches a tracked
    object: when the entity builds and the hook returns, [create] allocates
    a new entity and appends it to the class's bucket, every time. *)
Theorem create_without_id_is_new (st : state) (c : EntityClass) (data : option record)
    (ent : Entity) (own : record) :
  wf st →
  record_get (default ∅ data) "id" = VUndef →
  build_entity c (default ∅ data) = Ok ent →
  call_constructor c ∅ = Ok own →
  ∃ st', create st c data = (st', Ok (length (heap st)))
    ∧ heap st' = heap st ++ [set_own (OEntity ent) own]
    ∧ getAll st' c = getAll st c ++ [length (heap st)].
Proof.
  intros Hwf Hid Hb Hhook. unfold create. rewrite Hb, Hid. simpl.
  destruct (build_entity_inv _ _ _ Hb) as (_ & _ & Hown & _). rewrite Hown, Hhook.
  simpl. eexists. split; [reflexivity|]. split; [done|].
  unfold getAll. rewrite addToObjectMap_bucket, decide_True by done.
  rewrite bool_decide_eq_false_2; [done|].
  apply (fresh_not_in_bucket st (cls_name c) Hwf).
Qed.

Lemma create_without_id_is_new_witness :
  ∃ st', create (fst (create empty_state User None)) User None = (st', Ok 1)
    ∧ getAll st' User = [0; 1].
Proof.
  destruct (create_without_id_is_new (fst (create empty_state User None)) User None
              {| e_class := User;
                 values := <["name" := VUndef]> (<["id" := VUndef]> ∅);
                 raw := <["name" := VUndef]> (<["id" := VUndef]> ∅);
                 dirty := false; e_own := ∅ |} ∅)
    as (st' & Hc & _ & Hall).
  - apply (create_wf empty_state User None wf_empty).
  - reflexivity.
  - reflexivity.
  - reflexivity.
  - exists st'. split; [exact Hc|exact Hall].
Defined.

Lemma numeric_tracked_id (st : state) (c : EntityClass) (n : Z) (l : loc) :
  numeric_inv st → tracked_for st c (VNum n) l → id_at st l = VNum n.
Proof.
  intros (_ & Hnum & _) [Hin Heq]. destruct (Hnum _ _ Hin) as [m Hm].
  rewrite Hm in Heq. apply loose_eq_num in Heq. simpl in Heq. congruence.
Qed.

Lemma update_keeps_id (st : state) (name : string) (existing : loc) (data : record)
    (n : Z) :
  numeric_inv st →
  existing ∈ bucket st name →
  id_at st existing = VNum n →
  record_get data "id" = VNum n →
  id_at (fst (update st existing data)) existing = VNum n.
Proof.
  intros Hinv Hin Hid Hdata. unfold update.
  destruct (heap st !! existing) as [[e0|p]|] eqn:E; [| |done].
  2: { by destruct (schema (p_class p)). }
  destruct (update_loop (schema (e_class e0)) data e0) as [e' r] eqn:Hloop. simpl.
  pose proof (update_loop_inv _ _ _ _ _ Hloop) as (Hc & _ & _ & Hcases).
  destruct Hinv as (_ & _ & Hcls & _).
  pose proof (Hcls _ _ _ Hin E) as Hnumcls.
  unfold id_at. rewrite (store_lookup_eq _ _ _ _ E). simpl.
  rewrite numeric_entity_id by by rewrite Hc.
  unfold id_at in Hid. rewrite E in Hid. simpl in Hid.
  rewrite numeric_entity_id in Hid by done.
  destruct (Hcases "id") as [Heq|(p & v & Hp & Hv & Hs)].
  - unfold record_get in *. by rewrite Heq.
  - rewrite Hdata in Hv. destruct Hnumcls as [_ Hpres].
    rewrite (Hpres _ _ _ Hp Hv) in Hs. unfold record_get. by rewrite Hs.
Qed.

Lemma create_existing_id (st : state) (c : EntityClass) (data : option record)
    (n : Z) (l : loc) :
  numeric_inv st →
  record_get (default ∅ data) "id" = VNum n →
  getFromObjectMap st c (VNum n) = Some l →
  id_at (fst (create st c data)) l = VNum n.
Proof.
  intros Hinv Hdata Hfind.
  pose proof (getFromObjectMap_Some _ _ _ _ Hfind) as [_ Ht].
  pose proof (numeric_tracked_id _ _ _ _ Hinv Ht) as Hid.
  destruct Ht as [Hin _].
  unfold create. rewrite Hdata, Hfind.
  destruct (build_entity c (default ∅ data)) as [ent|err]; [|done].
  destruct (getProxyClass st c) as [st1 pc] eqn:Hg.
  destruct (getProxyClass_state _ _ _ _ Hg) as [Hh Hm].
  assert (numeric_inv st1) as Hinv1 by by apply (numeric_inv_ext st).
  assert (id_at st1 l = VNum n) as Hid1 by (unfold id_at; by rewrite Hh).
  destruct (instanceof_proxy st1 l c) eqn:Hi; simpl.
  - unfold instanceof_proxy in Hi.
    destruct (heap st1 !! l) as [[e0|p]|] eqn:E; try discriminate.
    pose proof (lookup_lt_Some _ _ _ E) as Hlt.
    rewrite (lookup_app_l (heap st1)) by done. rewrite E. simpl.
    assert (p_id p = VNum n) as Hp by (unfold id_at in Hid1; by rewrite E in Hid1).
    destruct (call_constructor c (p_own p)); simpl; unfold id_at; simpl.
    + rewrite list_lookup_insert_eq; [done|].
      rewrite length_insert, length_app. lia.
    + rewrite list_lookup_insert_eq; [done|]. rewrite length_app. lia.
  - assert (id_at (fst (update st1 l (default ∅ data))) l = VNum n) as H.
    { apply (update_keeps_id st1 (cls_name c)); try done.
      unfold bucket. by rewrite Hm. }
    by destruct (update st1 l (default ∅ data)) as [st2 [[]|err]].
Qed.

(** X7. Insert then look up, for numeric ids: in a state reached with
    numeric ids only, when [create] for a class that reads its id unchanged
    returns a reference, [get] with the id of the data returns that same
    reference in the state [create] left. *)
Theorem get_after_create (st st' : state) (c : EntityClass) (data : option record)
    (n : Z) (l : loc) :
  numeric_inv st →
  numeric_id_class c →
  record_get (default ∅ data) "id" = VNum n →
  create st c data = (st', Ok l) →
  get st' c (VNum n) = (st', Ok l).
Proof.
  intros Hinv Hcls Hdata Hcreate.
  pose proof (create_numeric_inv st c data n Hinv Hcls Hdata) as Hinv'.
  pose proof (create_extends st c data) as Hext.
  rewrite Hcreate in Hinv', Hext. simpl in Hinv', Hext.
  assert (tracked_for st' c (VNum n) l) as Ht.
  { destruct (create_result_cases _ _ _ _ _ Hcreate) as [Hf|(Hf & _ & _)];
      rewrite Hdata in Hf.
    - split.
      + apply getFromObjectMap_Some in Hf as [_ [Hb _]]. by apply (extends_elem st).
      + pose proof (create_existing_id st c data n l Hinv Hdata Hf) as Hid.
        rewrite Hcreate in Hid. simpl in Hid. rewrite Hid. apply loose_eq_num_refl.
    - rewrite <- Hdata in Hf.
      destruct (create_fresh_state _ _ _ _ _ Hf Hcreate) as (ent & own & Hb & _ & -> & ->).
      split; [apply addToObjectMap_elem|].
      unfold id_at. simpl. rewrite lookup_fresh. simpl.
      destruct (build_entity_numeric_id _ _ _ _ Hcls Hdata Hb) as [Hc Hval].
      unfold entity_get. simpl. destruct Hcls as [(p & Hp & Hr) _].
      rewrite Hc, Hp, Hr, Hval. apply loose_eq_num_refl. }
  unfold get. rewrite getFromObjectMap_defined by done.
  destruct (find_id st' (VNum n) (bucket st' (cls_name c))) as [l'|] eqn:E.
  - apply find_id_Some in E as (pre & post & Hb & Heq & _).
    assert (tracked_for st' c (VNum n) l') as Ht'.
    { split; [|done]. rewrite Hb. apply elem_of_app. right. apply list_elem_of_here. }
    by rewrite (numeric_inv_unique st' c (VNum n) l' l Hinv' Ht' Ht).
  - rewrite find_id_None in E. destruct Ht as [Hin Heq].
    rewrite (E l Hin) in Heq. discriminate.
Qed.

Lemma get_after_create_witness :
  let st := run empty_state sample_calls in
  let st' := fst (create st User (Some (user_data (VNum 9) "Cy"))) in
  get st' User (VNum 9) = (st', Ok 3).
Proof.
  intros st st'.
  apply (get_after_create st st' User (Some (user_data (VNum 9) "Cy")) 9 3).
  - apply run_numeric_inv; [apply numeric_inv_empty|].
    repeat apply Forall_cons_2; try apply Forall_nil_2; simpl;
      try (split; [apply numeric_id_class_User|]); eexists; reflexivity.
  - apply numeric_id_class_User.
  - reflexivity.
  - assert (snd (create st User (Some (user_data (VNum 9) "Cy"))) = Ok 3) as H
      by (vm_compute; reflexivity).
    subst st'. destruct (create st User (Some (user_data (VNum 9) "Cy"))) as [s r].
    simpl in *. by rewrite H.
Defined.

(** ** Constructing again for a tracked entity *)

Lemma update_loop_total (sch : Schema) (data : record) (e0 e0' : Entity) :
  defineProperties sch data e0 = Ok e0' →
  ∀ e, ∃ e', update_loop sch data e = (e', Ok tt).
Proof.
  revert e0. induction sch as [|[n q] sch IH]; simpl; intros e0 H e.
  - by exists e.
  - unfold defineProperty in H. destruct (transform q) as [f|] eqn:Ht; [|discriminate].
    unfold loadPropertyValue in H |- *. unfold call_transform in H |- *. rewrite Ht in H |- *.
    destruct (f (record_get data n)) as [v|err]; [|discriminate].
    simpl in H. by eapply IH.
Qed.

Lemma instanceof_proxy_entity (st : state) (l : loc) (e : Entity) (c : EntityClass) :
  heap st !! l = Some (OEntity e) → instanceof_proxy st l c = false.
Proof. intros H. unfold instanceof_proxy. by rewrite H. Qed.

(** X8. Constructing again for an id whose tracked object is an entity of
    the class makes no second object: [create] returns the tracked entity,
    the map and every other object are unchanged, and the entity's raw and
    values now hold the new data (last write wins); its dirty flag and its
    own properties are left as they were, so the hook has not run and a
    dirty entity stays dirty. *)
Theorem reconstruct_updates_in_place (st : state) (c : EntityClass) (data : record)
    (ent e : Entity) (l : loc) :
  getFromObjectMap st c (record_get data "id") = Some l →
  heap st !! l = Some (OEntity e) →
  e_class e = c →
  NoDup (schema c).*1 →
  build_entity c data = Ok ent →
  ∃ st' e', create st c (Some data) = (st', Ok l)
    ∧ objectMap st' = objectMap st
    ∧ length (heap st') = length (heap st)
    ∧ heap st' !! l = Some (OEntity e')
    ∧ e_class e' = c ∧ dirty e' = dirty e ∧ e_own e' = e_own e
    ∧ (∀ name p, (name, p) ∈ schema c →
         values e' !! name = values ent !! name
         ∧ raw e' !! name = Some (record_get data name))
    ∧ (∀ l', l' ≠ l → heap st' !! l' = heap st !! l').
Proof.
  intros Hfind Hl Hcls Hnd Hb.
  destruct (update_loop_total _ _ _ _ Hb e) as [e' Hloop].
  pose proof (update_loop_inv _ _ _ _ _ Hloop) as (Hc & Hd & Ho & _).
  pose proof (update_loop_ok _ _ _ _ Hnd Hloop) as Hvals.
  destruct (build_entity_inv _ _ _ Hb) as (_ & _ & _ & Hent).
  unfold create. simpl. rewrite Hb, Hfind.
  destruct (getProxyClass st c) as [st1 pc] eqn:Hg.
  destruct (getProxyClass_state _ _ _ _ Hg) as [Hh Hm].
  rewrite (instanceof_proxy_entity st1 l e) by by rewrite Hh. simpl.
  unfold update. rewrite Hh, Hl, Hcls, Hloop.
  exists (store st1 l (OEntity e')), e'. split_and!; try done.
  - unfold store. simpl. by rewrite length_insert, Hh.
  - unfold store. simpl. rewrite Hh. apply list_lookup_insert_eq.
    by apply lookup_lt_Some in Hl.
  - congruence.
  - intros name p Hin. destruct (Hvals name p Hin) as (v & Hv & Hval & Hraw).
    destruct (Hent Hnd name p Hin) as (v' & Hv' & Hval' & _).
    split; [|done]. congruence.
  - intros l' Hne. unfold store. simpl. rewrite Hh. by rewrite list_lookup_insert_ne.
Qed.

Lemma reconstruct_updates_in_place_witness :
  let st := fst (create empty_state User (Some (user_data (VNum 7) "Ann"))) in
  ∃ st' e', create st User (Some (user_data (VNum 7) "Bob")) = (st', Ok 0)
    ∧ heap st' !! 0 = Some (OEntity e')
    ∧ values e' !! "name" = Some (VStr "Bob").
Proof.
  intros st.
  destruct (reconstruct_updates_in_place st User (user_data (VNum 7) "Bob")
              {| e_class := User;
                 values := <["name" := VStr "Bob"]> (<["id" := VNum 7]> ∅);
                 raw := <["name" := VStr "Bob"]> (<["id" := VNum 7]> ∅);
                 dirty := false; e_own := ∅ |}
              {| e_class := User;
                 values := <["name" := VStr "Ann"]> (<["id" := VNum 7]> ∅);
                 raw := <["name" := VStr "Ann"]> (<["id" := VNum 7]> ∅);
                 dirty := false; e_own := ∅ |} 0)
    as (st' & e' & Hc & _ & _ & Hl & _ & _ & _ & Hv & _).
  - reflexivity.
  - reflexivity.
  - reflexivity.
  - apply NoDup_two. discriminate.
  - reflexivity.
  - exists st', e'. split; [exact Hc|]. split; [exact Hl|].
    destruct (Hv "name" identity_property) as [Hn _].
    + simpl. apply list_elem_of_further, list_elem_of_here.
    + rewrite Hn. reflexivity.
Defined.

(** ** Writing *)

(** X9. Writing a schema property other than [id] on a resolved proxy is
    forwarded to its delegate: for a writable property whose transform
    returns, the delegate gets the transformed value and its dirty flag,
    the proxy object itself is untouched, and a read through the proxy
    gives the new value when the property is readable. *)
Theorem write_through_proxy (st : state) (l d : loc) (p : ProxyInstance) (e : Entity)
    (name : string) (q : Property) (v w : value) :
  heap st !! l = Some (OProxy p) →
  object p = Some d →
  heap st !! d = Some (OEntity e) →
  name ≠ "id" →
  is_Some (schema_get (schema (p_class p)) name) →
  schema_get (schema (e_class e)) name = Some q →
  writable q = true →
  call_transform q v = Ok w →
  let e' := {| e_class := e_class e; values := <[name := w]> (values e);
               raw := raw e; dirty := true; e_own := e_own e |} in
  let st' := store st d (OEntity e') in
  set_prop st l name v = (st', Ok tt)
  ∧ heap st' !! l = Some (OProxy p)
  ∧ heap st' !! d = Some (OEntity e')
  ∧ (readable q = true → get_prop st' l name = Ok w).
Proof.
  intros Hl Hobj Hd Hname [q0 Hq0] Hq Hw Ht e' st'.
  assert (l ≠ d) as Hne by (intros ->; congruence).
  assert (heap st' !! l = Some (OProxy p)) as Hl'
    by (unfold st'; by rewrite store_lookup_ne).
  assert (heap st' !! d = Some (OEntity e')) as Hd'
    by by apply (store_lookup_eq _ _ _ (OEntity e)).
  apply String.eqb_neq in Hname.
  split_and!; try done.
  - unfold set_prop. rewrite Hl, Hname, Hq0. unfold load. rewrite Hobj, Hd.
    unfold entity_set. by rewrite Hq, Hw, Ht.
  - intros Hr. unfold get_prop. rewrite Hl', Hname, Hq0. unfold load.
    rewrite Hobj, Hd'. unfold entity_get. simpl. rewrite Hq, Hr.
    unfold record_get. simpl. by rewrite lookup_insert_eq.
Qed.

Lemma write_through_proxy_witness :
  let st1 := fst (getReference empty_state User (VNum 7)) in
  let st2 := fst (create st1 User (Some (user_data (VNum 7) "Ann"))) in
  snd (set_prop st2 0 "name" (VStr "Bob")) = Ok tt
  ∧ get_prop (fst (set_prop st2 0 "name" (VStr "Bob"))) 0 "name" = Ok (VStr "Bob").
Proof.
  intros st1 st2.
  destruct (write_through_proxy st2 0 1
              {| p_key := "UserProxy"; p_class := User; p_id := VNum 7;
                 object := Some 1; p_own := <["count" := VNum 1]> ∅ |}
              {| e_class := User;
                 values := <["name" := VStr "Ann"]> (<["id" := VNum 7]> ∅);
                 raw := <["name" := VStr "Ann"]> (<["id" := VNum 7]> ∅);
                 dirty := false; e_own := ∅ |}
              "name" identity_property (VStr "Bob") (VStr "Bob"))
    as (Hset & _ & _ & Hget); try reflexivity.
  - discriminate.
  - eexists. reflexivity.
  - rewrite Hset. simpl. split; [reflexivity|]. apply Hget. reflexivity.
Defined.

Lemma toArray_loop_ext (st1 st2 : state) (l1 l2 : loc) (sch : Schema) (acc : record) :
  (∀ n q, (n, q) ∈ sch → get_prop st1 l1 n = get_prop st2 l2 n) →
  toArray_loop st1 l1 sch acc = toArray_loop st2 l2 sch acc.
Proof.
  revert acc. induction sch as [|[n q] sch IH]; simpl; intros acc H; [done|].
  assert (∀ n' q', (n', q') ∈ sch → get_prop st1 l1 n' = get_prop st2 l2 n') as H'.
  { intros n' q' Hin. apply (H n' q'). by apply list_elem_of_further. }
  destruct (persistable q); [|by apply IH].
  rewrite (H n q (list_elem_of_here _ _)).
  destruct (get_prop st2 l2 n) as [v|err]; [|done].
  destruct (call_reverseTransform q v) as [w|err]; [|done]. by apply IH.
Qed.

(** X13. A write whose transform throws still marks the entity dirty: the
    setter raises the flag before it calls the transform.  The error is the
    transform's; no value has changed, so every read and [toArray] give
    what they gave before. *)
Theorem failed_write_marks_dirty (st : state) (l : loc) (e : Entity) (name : string)
    (q : Property) (v : value) (err : error) :
  heap st !! l = Some (OEntity e) →
  schema_get (schema (e_class e)) name = Some q →
  writable q = true →
  call_transform q v = Throw err →
  let e' := {| e_class := e_class e; values := values e; raw := raw e;
               dirty := true; e_own := e_own e |} in
  let st' := store st l (OEntity e') in
  set_prop st l name v = (st', Throw err)
  ∧ heap st' !! l = Some (OEntity e')
  ∧ (∀ n, get_prop st' l n = get_prop st l n)
  ∧ toArray st' l = toArray st l.
Proof.
  intros Hl Hq Hw Ht e' st'.
  assert (heap st' !! l = Some (OEntity e')) as Hl'
    by by apply (store_lookup_eq _ _ _ (OEntity e)).
  assert (∀ n, get_prop st' l n = get_prop st l n) as Hget.
  { intros n. by rewrite (get_prop_entity _ _ _ _ Hl'), (get_prop_entity _ _ _ _ Hl). }
  split_and!; try done.
  - unfold set_prop. rewrite Hl. unfold entity_set. by rewrite Hq, Hw, Ht.
  - unfold toArray. rewrite Hl', Hl. simpl. apply toArray_loop_ext. auto.
Qed.

Lemma failed_write_marks_dirty_witness :
  let st := fst (create empty_state Account (Some (account_data (VNum 1) "Ann" (VNum 10)))) in
  ∃ e', set_prop st 0 "balance" (VStr "x")
        = (store st 0 (OEntity e'), Throw (Raised "not a number"))
    ∧ dirty e' = true
    ∧ toArray (store st 0 (OEntity e')) 0 = toArray st 0.
Proof.
  intros st.
  destruct (failed_write_marks_dirty st 0
              {| e_class := Account;
                 values := <["balance" := VNum 10]>
                             (<["owner" := VStr "Ann"]> (<["id" := VNum 1]> ∅));
                 raw := <["balance" := VNum 10]>
                          (<["owner" := VStr "Ann"]> (<["id" := VNum 1]> ∅));
                 dirty := false; e_own := ∅ |}
              "balance" number_property (VStr "x") (Raised "not a number"))
    as (Hset & _ & _ & Harr); try reflexivity.
  eexists. split; [exact Hset|]. split; [reflexivity|exact Harr].
Defined.

(** ** [toArray] on proxies *)

Lemma schema_get_is_Some (sch : Schema) (name : string) (q : Property) :
  (name, q) ∈ sch → is_Some (schema_get sch name).
Proof.
  intros Hin. destruct (schema_get sch name) eqn:E; [eauto|].
  apply schema_get_None in E. exfalso. apply E.
  apply list_elem_of_fmap. by exists (name, q).
Qed.

(** X11. [toArray] on a resolved proxy is [toArray] on its delegate, when
    the delegate is an entity of the class the proxy stands for and reads
    the same [id] as the proxy has captured. *)
Theorem toArray_through_proxy (st : state) (l d : loc) (p : ProxyInstance) (e : Entity) :
  heap st !! l = Some (OProxy p) →
  object p = Some d →
  heap st !! d = Some (OEntity e) →
  e_class e = p_class p →
  entity_get e "id" = p_id p →
  toArray st l = toArray st d.
Proof.
  intros Hl Hobj Hd Hcls Hid. unfold toArray. rewrite Hl, Hd. simpl. rewrite Hcls.
  apply toArray_loop_ext. intros n q Hin.
  rewrite (get_prop_entity _ _ _ _ Hd). unfold get_prop. rewrite Hl.
  destruct (String.eqb n "id") eqn:En.
  - apply String.eqb_eq in En as ->. by rewrite Hid.
  - destruct (schema_get_is_Some _ _ _ Hin) as [q0 ->].
    unfold load. by rewrite Hobj, Hd.
Qed.

Lemma toArray_through_proxy_witness :
  let st1 := fst (getReference empty_state User (VNum 7)) in
  let st2 := fst (create st1 User (Some (user_data (VNum 7) "Ann"))) in
  toArray st2 0 = toArray st2 1.
Proof.
  intros st1 st2.
  apply (toArray_through_proxy st2 0 1
           {| p_key := "UserProxy"; p_class := User; p_id := VNum 7;
              object := Some 1; p_own := <["count" := VNum 1]> ∅ |}
           {| e_class := User;
              values := <["name" := VStr "Ann"]> (<["id" := VNum 7]> ∅);
              raw := <["name" := VStr "Ann"]> (<["id" := VNum 7]> ∅);
              dirty := false; e_own := ∅ |}); reflexivity.
Defined.

Lemma toArray_loop_unresolved (st : state) (l : loc) (p : ProxyInstance) (sch : Schema)
    (acc : record) :
  heap st !! l = Some (OProxy p) →
  object p = None →
  (∀ n q, (n, q) ∈ sch → is_Some (schema_get (schema (p_class p)) n)) →
  (∀ q, ("id", q) ∈ sch → persistable q = true →
     ∃ u, call_reverseTransform q (p_id p) = Ok u) →
  (∃ n q, (n, q) ∈ sch ∧ n ≠ "id" ∧ persistable q = true) →
  toArray_loop st l sch acc = Throw NotLoadable.
Proof.
  intros Hl Hobj. revert acc.
  induction sch as [|[n q] sch IH]; simpl; intros acc Hsch Hid (n0 & q0 & Hin & Hn0 & Hp0).
  - by apply not_elem_of_nil in Hin.
  - assert (∀ acc', (n0, q0) ∈ sch → toArray_loop st l sch acc' = Throw NotLoadable) as Hrest.
    { intros acc' Hin'. apply IH.
      - intros n' q' H'. apply (Hsch n' q'). by apply list_elem_of_further.
      - intros q' H'. apply Hid. by apply list_elem_of_further.
      - by exists n0, q0. }
    destruct (persistable q) eqn:Hp.
    + destruct (decide (n = "id")) as [->|Hne].
      * unfold get_prop. rewrite Hl. simpl.
        destruct (Hid q (list_elem_of_here _ _) Hp) as [u ->].
        apply Hrest. apply elem_of_cons in Hin as [[= ? ?]|?]; [congruence|done].
      * rewrite (unresolved_get st l p n Hl Hobj Hne); [done|].
        apply (Hsch n q). apply list_elem_of_here.
    + apply Hrest. apply elem_of_cons in Hin as [[= ? ?]|?]; [congruence|done].
Qed.

(** X10. [toArray] on a proxy without delegate throws 'Entity cannot be
    loaded' as soon as the schema has a persistable property other than
    [id] (the reverse transform of a persistable [id] returning on the
    captured id): an unresolved reference cannot be serialised. *)
Theorem toArray_unresolved_proxy (st : state) (l : loc) (p : ProxyInstance)
    (name : string) (q : Property) :
  heap st !! l = Some (OProxy p) →
  object p = None →
  (name, q) ∈ schema (p_class p) →
  name ≠ "id" →
  persistable q = true →
  (∀ q', ("id", q') ∈ schema (p_class p) → persistable q' = true →
     ∃ u, call_reverseTransform q' (p_id p) = Ok u) →
  toArray st l = Throw NotLoadable.
Proof.
  intros Hl Hobj Hin Hname Hp Hid. unfold toArray. rewrite Hl. simpl.
  apply (toArray_loop_unresolved st l p); try done.
  - intros n q' H. by apply (schema_get_is_Some _ _ q').
  - by exists name, q.
Qed.

Lemma toArray_unresolved_proxy_witness :
  toArray (fst (getReference empty_state User (VNum 7))) 0 = Throw NotLoadable.
Proof.
  apply (toArray_unresolved_proxy (fst (getReference empty_state User (VNum 7))) 0
           {| p_key := "UserProxy"; p_class := User; p_id := VNum 7;
              object := None; p_own := <["count" := VNum 1]> ∅ |}
           "name" identity_property); try reflexivity.
  - simpl. apply list_elem_of_further, list_elem_of_here.
  - discriminate.
  - intros q' Hin _. simpl in Hin.
    apply elem_of_cons in Hin as [[= ->]|Hin]; [eexists; reflexivity|].
    apply list_elem_of_singleton in Hin. discriminate.
Defined.

(** ** Building a new entity *)

Lemma defineProperties_app (pre rest : Schema) (data : record) (e : Entity) :
  (∀ n q, (n, q) ∈ pre →
     transform q ≠ None ∧ ∃ v, call_transform q (record_get data n) = Ok v) →
  ∃ e', defineProperties (pre ++ rest) data e = defineProperties rest data e'.
Proof.
  revert e. induction pre as [|[n q] pre IH]; simpl; intros e H; [by exists e|].
  destruct (H n q (list_elem_of_here _ _)) as [Ht [v Hv]].
  unfold defineProperty, loadPropertyValue. rewrite Hv.
  destruct (transform q); [|done]. simpl. apply IH.
  intros n' q' Hin. apply H. by apply list_elem_of_further.
Qed.

(** X12. The first property of the schema that cannot be loaded decides how
    [create] fails: without a 'transform' key the error is 'transform is
    mandatory', and a transform that throws passes its own error on.  In
    both cases the state is unchanged. *)
Theorem create_first_failure (st : state) (c : EntityClass) (data : record)
    (pre post : Schema) (name : string) (p : Property) :
  schema c = pre ++ (name, p) :: post →
  (∀ n q, (n, q) ∈ pre →
     transform q ≠ None ∧ ∃ v, call_transform q (record_get data n) = Ok v) →
  (transform p = None → create st c (Some data) = (st, Throw TransformMandatory))
  ∧ (∀ f err, transform p = Some f → f (record_get data name) = Throw err →
       create st c (Some data) = (st, Throw err)).
Proof.
  intros Hsch Hpre. unfold create, build_entity. simpl. rewrite Hsch.
  set (e0 := {| e_class := c; values := ∅; raw := ∅; dirty := false; e_own := ∅ |}).
  destruct (defineProperties_app pre ((name, p) :: post) data e0 Hpre) as [e' ->].
  simpl. unfold defineProperty, loadPropertyValue, call_transform. split.
  - intros ->. done.
  - intros f err -> ->. done.
Qed.

Lemma create_first_failure_witness :
  create empty_state Account (Some (account_data (VNum 1) "Ann" (VStr "x")))
  = (empty_state, Throw (Raised "not a number")).
Proof.
  refine (proj2 (create_first_failure empty_state Account
                   (account_data (VNum 1) "Ann" (VStr "x"))
                   [("id", identity_property); ("owner", identity_property)] []
                   "balance" number_property eq_refl _) number_only _ eq_refl eq_refl).
  intros n q Hin. split.
  - apply elem_of_cons in Hin as [[= _ ->]|Hin];
      [|apply list_elem_of_singleton in Hin as [= _ ->]]; discriminate.
  - apply elem_of_cons in Hin as [[= _ ->]|Hin];
      [|apply list_elem_of_singleton in Hin as [= _ ->]]; eexists; reflexivity.
Defined.

(** X15. A new entity keeps a raw snapshot of exactly the schema's
    properties: for every schema property, [$raw] holds the input value
    (undefined when the data has no such key) and [$values] has an entry;
    keys of the data that are not schema properties are dropped.  The
    entity starts clean. *)
Theorem new_entity_snapshot (st st' : state) (c : EntityClass) (data : record) (l : loc) :
  getFromObjectMap st c (record_get data "id") = None →
  create st c (Some data) = (st', Ok l) →
  NoDup (schema c).*1 →
  ∃ e, heap st' !! l = Some (OEntity e)
    ∧ e_class e = c
    ∧ dirty e = false
    ∧ (∀ name, name ∈ (schema c).*1 →
         raw e !! name = Some (record_get data name) ∧ is_Some (values e !! name))
    ∧ (∀ name, name ∉ (schema c).*1 →
         raw e !! name = None ∧ values e !! name = None).
Proof.
  intros Hnone Hcreate Hnd.
  destruct (create_fresh_state st st' c (Some data) l Hnone Hcreate)
    as (ent & own & Hb & _ & -> & ->).
  simpl in Hb. destruct (build_entity_inv _ _ _ Hb) as (Hc & Hd & _ & Hvals).
  eexists. split; [simpl; apply lookup_fresh|]. simpl. split_and!; try done.
  - intros name Hin. apply list_elem_of_fmap in Hin as ([n q] & -> & Hin). simpl.
    destruct (Hvals Hnd n q Hin) as (v & _ & Hv & Hr). split; [done|eauto].
  - intros name Hnin. unfold build_entity in Hb.
    apply defineProperties_update_loop in Hb.
    destruct (update_loop_other _ _ _ _ _ name Hb Hnin) as [-> ->]. simpl.
    by rewrite !lookup_empty.
Qed.

Lemma new_entity_snapshot_witness :
  ∃ e, heap (fst (create empty_state User (Some (<["age" := VNum 30]> (user_data (VNum 7) "Ann")))))
         !! 0 = Some (OEntity e)
    ∧ raw e !! "name" = Some (VStr "Ann")
    ∧ raw e !! "age" = None.
Proof.
  destruct (new_entity_snapshot empty_state
              (fst (create empty_state User
                      (Some (<["age" := VNum 30]> (user_data (VNum 7) "Ann")))))
              User (<["age" := VNum 30]> (user_data (VNum 7) "Ann")) 0)
    as (e & He & _ & _ & Hin & Hout).
  - reflexivity.
  - reflexivity.
  - apply NoDup_two. discriminate.
  - exists e. split; [exact He|]. split.
    + destruct (Hin "name") as [Hr _]; [|exact Hr].
      simpl. apply list_elem_of_further, list_elem_of_here.
    + destruct (Hout "age") as [Hr _]; [|exact Hr].
      simpl. intros H. apply elem_of_cons in H as [H|H]; [discriminate|].
      apply list_elem_of_singleton in H. discriminate.
Defined.

(** ** [prepareEntity] and the names the manager reads *)

Lemma getFromObjectMap_name (st : state) (c1 c2 : EntityClass) (id : value) :
  cls_name c1 = cls_name c2 → getFromObjectMap st c1 id = getFromObjectMap st c2 id.
Proof. intros H. unfold getFromObjectMap. by rewrite H. Qed.

Lemma prepareEntity_inv (identifier : string) (f f' : ClassFunction) (sch : Schema) :
  prepareEntity identifier f sch = (f', Ok tt) →
  fn_name f' = fn_name f ∧ fn_body f' = fn_body f
  ∧ fn_constructor f' = fn_constructor f
  ∧ proto_name f' = Some identifier ∧ proto_schema f' = Some sch
  ∧ proto_schema f = None.
Proof.
  unfold prepareEntity.
  destruct (match proto_name f with Some n => String.eqb n identifier | None => true end);
    [|discriminate].
  destruct (proto_schema f) eqn:E; [discriminate|]. by intros [= <-].
Qed.

Lemma getReference_then_lookup (st st1 : state) (c : EntityClass) (id : value) (l : loc) :
  wf st → id ≠ VUndef → loose_eq id id = true →
  getReference st c id = (st1, Ok l) →
  getFromObjectMap st1 c id = Some l.
Proof.
  intros Hwf Hid Hrefl Href.
  destruct (getReference_result_cases _ _ _ _ _ Href) as [[Hf ->]|[Hf Hc]]; [done|].
  pose proof (createProxy_inv _ _ _ _ _ Hc) as (own & Hbody & -> & _).
  rewrite (createProxy_ok _ _ _ _ Hwf Hbody) in Hc. injection Hc as <-.
  by apply lookup_new_proxy.
Qed.

(** X16. [prepareEntity] puts [$name] on the prototype, and the manager
    reads [$name] from the function: for functions without a [$name] of
    their own the identifier is never used, the key is "undefined" for all
    of them, and they share one bucket.  A reference obtained for one
    prepared class is what [get] returns for another one with the same
    id, whatever the identifiers were. *)
Theorem prepared_classes_share_bucket (fa fb fa' fb' : ClassFunction)
    (ida idb : string) (scha schb : Schema) (st st1 : state) (id : value) (l : loc) :
  fn_name fa = None →
  fn_name fb = None →
  prepareEntity ida fa scha = (fa', Ok tt) →
  prepareEntity idb fb schb = (fb', Ok tt) →
  wf st →
  id ≠ VUndef →
  loose_eq id id = true →
  getReference st (entity_class_of fa') id = (st1, Ok l) →
  cls_name (entity_class_of fa') = "undefined"
  ∧ cls_name (entity_class_of fb') = "undefined"
  ∧ schema (entity_class_of fa') = scha
  ∧ get st1 (entity_class_of fb') id = (st1, Ok l).
Proof.
  intros Hna Hnb Hpa Hpb Hwf Hid Hrefl Href.
  destruct (prepareEntity_inv _ _ _ _ Hpa) as (Ha & _ & _ & _ & Hsa & _).
  destruct (prepareEntity_inv _ _ _ _ Hpb) as (Hb & _).
  assert (cls_name (entity_class_of fa') = "undefined") as Hca
    by (simpl; by rewrite Ha, Hna).
  assert (cls_name (entity_class_of fb') = "undefined") as Hcb
    by (simpl; by rewrite Hb, Hnb).
  split_and!; try done.
  - simpl. by rewrite Hsa.
  - unfold get.
    rewrite (getFromObjectMap_name st1 (entity_class_of fb') (entity_class_of fa'))
      by congruence.
    by rewrite (getReference_then_lookup _ _ _ _ _ Hwf Hid Hrefl Href).
Qed.

Lemma prepared_classes_share_bucket_witness :
  let A := fst (prepareEntity "User" (plain_function (λ own, Ok own))
                  [("id", identity_property); ("name", identity_property)]) in
  let B := fst (prepareEntity "Order" (plain_function (λ own, Ok own))
                  [("id", identity_property); ("total", number_property)]) in
  let st1 := fst (getReference empty_state (entity_class_of A) (VNum 7)) in
  get st1 (entity_class_of B) (VNum 7) = (st1, Ok 0).
Proof.
  intros A B st1.
  refine (proj2 (proj2 (proj2
            (prepared_classes_share_bucket (plain_function (λ own, Ok own))
               (plain_function (λ own, Ok own)) A B "User" "Order" _ _
               empty_state st1 (VNum 7) 0 eq_refl eq_refl eq_refl eq_refl
               wf_empty _ eq_refl eq_refl)))).
  discriminate.
Defined.

(** X18. A class can be prepared once: a second [prepareEntity] on the same
    function throws a TypeError, whatever identifier and schema it is given,
    and the prototype keeps the schema of the first call. *)
Theorem prepareEntity_once (f f' : ClassFunction) (id1 id2 : string) (sch1 sch2 : Schema) :
  prepareEntity id1 f sch1 = (f', Ok tt) →
  snd (prepareEntity id2 f' sch2) = Throw TypeError
  ∧ proto_schema (fst (prepareEntity id2 f' sch2)) = Some sch1
  ∧ schema (entity_class_of (fst (prepareEntity id2 f' sch2))) = sch1.
Proof.
  intros H. destruct (prepareEntity_inv _ _ _ _ H) as (_ & _ & _ & Hn & Hs & _).
  unfold prepareEntity. rewrite Hn, Hs.
  destruct (String.eqb id1 id2); simpl; by rewrite ?Hs.
Qed.

Lemma prepareEntity_once_witness :
  snd (prepareEntity "Order"
         (fst (prepareEntity "User" (plain_function (λ own, Ok own))
                 [("id", identity_property)]))
         [("id", identity_property); ("total", number_property)])
  = Throw TypeError.
Proof.
  exact (proj1 (prepareEntity_once (plain_function (λ own, Ok own)) _
                  "User" "Order" [("id", identity_property)]
                  [("id", identity_property); ("total", number_property)] eq_refl)).
Defined.

(** ** Constructing for a tracked id *)

(** X19. When the lookup finds a tracked object for the id of the data,
    [create] registers nothing: whatever the outcome (update, resolution,
    or an error on the way), the object map is the one it was. *)
Theorem create_tracked_keeps_map (st : state) (c : EntityClass) (data : option record)
    (l : loc) :
  getFromObjectMap st c (record_get (default ∅ data) "id") = Some l →
  objectMap (fst (create st c data)) = objectMap st
  ∧ ∀ c', getAll (fst (create st c data)) c' = getAll st c'.
Proof.
  intros Hfind.
  assert (objectMap (fst (create st c data)) = objectMap st) as Hm.
  { unfold create. rewrite Hfind.
    destruct (build_entity c (default ∅ data)) as [ent|err]; [|done].
    destruct (getProxyClass st c) as [st1 pc] eqn:Hg.
    destruct (getProxyClass_state _ _ _ _ Hg) as [_ Hm1].
    destruct (instanceof_proxy st1 l c); simpl.
    - destruct ((heap st1 ++ [OEntity ent]) !! l) as [o|]; [|done].
      by destruct (call_constructor c (get_own o)).
    - destruct (update st1 l (default ∅ data)) as [st2 r] eqn:Hu.
      apply update_frame in Hu as (Hm2 & _).
      destruct r as [[]|err]; simpl; congruence. }
  split; [done|]. intros c'. unfold getAll, bucket. by rewrite Hm.
Qed.

Lemma create_tracked_keeps_map_witness :
  let st := fst (getReference empty_state User (VNum 7)) in
  getAll (fst (create st User (Some (user_data (VNum 7) "Ann")))) User = [0].
Proof.
  intros st.
  rewrite (proj2 (create_tracked_keeps_map st User (Some (user_data (VNum 7) "Ann")) 0
                    eq_refl) User).
  reflexivity.
Defined.

(** * Identity uniqueness for coherent ids *)

Lemma num_eq_sym (a b : option Z) : num_eq a b = num_eq b a.
Proof. destruct a, b; simpl; try done. apply Z.eqb_sym. Qed.

Lemma loose_eq_sym (x y : value) : loose_eq x y = loose_eq y x.
Proof.
destruct x, y; simpl; try done;
  try apply (num_eq_sym (Some _)); try apply (num_eq_sym None);
  try apply num_eq_sym; try apply Z.eqb_sym; try apply String.eqb_sym.
by destruct b, b0.
Qed.

(** [==] between a number and a string compares the number with the value
    the string is read as: a decimal literal with fraction and exponent, or
    a hexadecimal, octal or binary one, rounded to the nearest double. *)
Lemma loose_eq_coercions :
  loose_eq (VNum 10) (VStr "1e1") = true
  ∧ loose_eq (VNum 16) (VStr "0x10") = true
  ∧ loose_eq (VNum 1) (VStr "1.0") = true
  ∧ loose_eq (VNum (2 ^ 53)) (VStr "9007199254740993") = true
  ∧ loose_eq (VNum 7) (VStr " 7 ") = true
  ∧ loose_eq (VNum 0) (VStr "") = true
  ∧ loose_eq (VNum 7) (VStr "7.5") = false
  ∧ loose_eq (VNum 7) (VStr "7x") = false.
Proof. by vm_compute. Qed.

Lemma lookup_snoc_Some {A : Type} (l : list A) (x y : A) (i : nat) :
  (l ++ [x]) !! i = Some y → l !! i = Some y ∨ (i = length l ∧ y = x).
Proof.
intros H. apply lookup_app_Some in H as [H|[Hle H]]; [by left|right].
apply list_lookup_singleton_Some in H as [H ->]. split; [lia|done].
Qed.

Section IdentityUniqueness.

Variable S : value → Prop.
Variable C : EntityClass → Prop.
Hypothesis S_defined : ∀ x, S x → x ≠ VUndef.
Hypothesis S_refl : ∀ x, S x → loose_eq x x = true.
Hypothesis S_trans : ∀ x y z, S x → S y → S z →
  loose_eq x y = true → loose_eq y z = true → loose_eq x z = true.
Hypothesis C_reads : ∀ c, C c → readable_id c ∧ ∀ k, S k → reads_id S c k.

Lemma id_inv_empty : id_inv S C empty_state.
Proof.
split_and!.
- apply wf_empty.
- intros name l H. by apply not_elem_of_nil in H.
- intros name l e H. by apply not_elem_of_nil in H.
- intros name i j l1 l2 H. by destruct i.
Qed.

(** One tracked object may change its id, as long as the old and the new id
    are both [==] to the same id of [S]. *)
Lemma id_inv_change (st st' : state) (l0 : loc) (k : value) :
  id_inv S C st →
  objectMap st' = objectMap st →
  length (heap st) ≤ length (heap st') →
  (∀ name l, l ∈ bucket st name → l ≠ l0 → id_at st' l = id_at st l) →
  S k → loose_eq (id_at st l0) k = true →
  S (id_at st' l0) → loose_eq (id_at st' l0) k = true →
  (∀ name l e, l ∈ bucket st name → heap st' !! l = Some (OEntity e) →
     C (e_class e)) →
  id_inv S C st'.
Proof.
intros (Hwf & Hnum & Hcls & Hnd) Hmap Hlen Hids Hk Hold HS' Hnew Hcls'.
assert (∀ name, bucket st' name = bucket st name) as Hb
  by (intros name; unfold bucket; by rewrite Hmap).
split_and!.
- apply (wf_mono st); done.
- intros name l Hin. rewrite Hb in Hin.
  destruct (decide (l = l0)) as [->|Hne]; [done|].
  rewrite (Hids _ _ Hin Hne). eauto.
- intros name l e Hin. rewrite Hb in Hin. eauto.
- intros name i j l1 l2 H1 H2 Heq. rewrite Hb in H1, H2.
  pose proof (list_elem_of_lookup_2 _ _ _ H1) as Hin1.
  pose proof (list_elem_of_lookup_2 _ _ _ H2) as Hin2.
  pose proof (Hnum _ _ Hin1) as HS1. pose proof (Hnum _ _ Hin2) as HS2.
  apply (Hnd name i j l1 l2 H1 H2).
  destruct (decide (l1 = l0)) as [->|Hne1], (decide (l2 = l0)) as [->|Hne2].
  + auto.
  + rewrite (Hids _ _ Hin2 Hne2), loose_eq_sym in Heq.
    assert (loose_eq (id_at st l2) k = true) as Hlk
      by (apply (S_trans _ (id_at st' l0)); auto).
    rewrite loose_eq_sym in Hlk. apply (S_trans _ k); auto.
  + rewrite (Hids _ _ Hin1 Hne1) in Heq.
    assert (loose_eq (id_at st l1) k = true) as Hlk
      by (apply (S_trans _ (id_at st' l0)); auto).
    rewrite loose_eq_sym in Hold. apply (S_trans _ k); auto.
  + by rewrite (Hids _ _ Hin1 Hne1), (Hids _ _ Hin2 Hne2) in Heq.
Qed.

Lemma id_inv_same_ids (st st' : state) :
  id_inv S C st →
  objectMap st' = objectMap st →
  length (heap st) ≤ length (heap st') →
  (∀ name l, l ∈ bucket st name → id_at st' l = id_at st l) →
  (∀ name l e, l ∈ bucket st name → heap st' !! l = Some (OEntity e) →
     C (e_class e)) →
  id_inv S C st'.
Proof.
intros (Hwf & Hnum & Hcls & Hnd) Hmap Hlen Hids Hcls'.
assert (∀ name, bucket st' name = bucket st name) as Hb
  by (intros name; unfold bucket; by rewrite Hmap).
split_and!.
- apply (wf_mono st); done.
- intros name l Hin. rewrite Hb in Hin. rewrite (Hids _ _ Hin). eauto.
- intros name l e Hin. rewrite Hb in Hin. eauto.
- intros name i j l1 l2 H1 H2 Heq. rewrite Hb in H1, H2.
  apply (Hnd name i j l1 l2 H1 H2).
  rewrite <- (Hids name l1), <- (Hids name l2); [done| |];
    by eapply list_elem_of_lookup_2.
Qed.

Lemma id_inv_ext (st st' : state) :
  id_inv S C st → heap st' = heap st → objectMap st' = objectMap st → id_inv S C st'.
Proof.
intros Hinv Hh Hm. apply (id_inv_same_ids st st'); try done.
- by rewrite Hh.
- intros name l _. unfold id_at. by rewrite Hh.
- intros name l e Hin. rewrite Hh. destruct Hinv as (_ & _ & Hcls & _). eauto.
Qed.

(** A new object is registered under an id [v] that is [==] to the id [k]
    the lookup has just missed. *)
Lemma id_inv_with_object (st : state) (name : string) (o : obj)
    (pcs : gmap string EntityClass) (k v : value) :
  id_inv S C st →
  obj_id o = v →
  S k → S v → loose_eq v k = true →
  (∀ e, o = OEntity e → C (e_class e)) →
  find_id st k (bucket st name) = None →
  id_inv S C (with_object st name o pcs).
Proof.
intros (Hwf & Hnum & Hcls & Hnd) Hid Hk Hv Hvk Hocls Hfind.
set (st' := with_object st name o pcs).
assert (∀ name', name' ≠ name → bucket st' name' = bucket st name') as Hbne.
{ intros name' Hne. unfold bucket, st', with_object. simpl.
  by rewrite lookup_insert_ne. }
assert (bucket st' name = bucket st name ++ [length (heap st)]) as Hbeq.
{ unfold bucket at 1, st', with_object. simpl. by rewrite lookup_insert_eq. }
assert (∀ name' l, l ∈ bucket st name' → id_at st' l = id_at st l) as Hold.
{ intros name' l Hin. apply (id_at_old st st' l o eq_refl).
  by apply (wf_bucket _ _ _ Hwf) in Hin. }
assert (id_at st' (length (heap st)) = v) as Hnew
  by (rewrite (id_at_fresh st st' o eq_refl); done).
assert (∀ name' l, l ∈ bucket st' name' →
          l ∈ bucket st name' ∨ (name' = name ∧ l = length (heap st))) as Hsplit.
{ intros name' l Hin. destruct (decide (name' = name)) as [->|Hne].
  - rewrite Hbeq in Hin. apply elem_of_app in Hin as [?|Hin]; [by left|].
    apply list_elem_of_singleton in Hin. by right.
  - rewrite Hbne in Hin by done. by left. }
assert (∀ l, l ∈ bucket st name → loose_eq (id_at st l) v = false) as Hmiss.
{ intros l Hin. rewrite find_id_None in Hfind. specialize (Hfind l Hin).
  destruct (loose_eq (id_at st l) v) eqn:E; [|done].
  rewrite <- Hfind. symmetry. eauto. }
split_and!.
- intros name' map l Hm Hin.
  assert (l ∈ bucket st' name') as Hin' by (unfold bucket; by rewrite Hm).
  unfold st', with_object. simpl. rewrite length_app. simpl.
  destruct (Hsplit _ _ Hin') as [Hin0|[_ ->]]; [|lia].
  apply (wf_bucket _ _ _ Hwf) in Hin0. lia.
- intros name' l Hin. destruct (Hsplit _ _ Hin) as [Hin0|[_ ->]].
  + rewrite (Hold _ _ Hin0). eauto.
  + by rewrite Hnew.
- intros name' l e Hin Hl. destruct (Hsplit _ _ Hin) as [Hin0|[_ ->]].
  + apply (Hcls name' l e Hin0).
    pose proof (wf_bucket _ _ _ Hwf Hin0) as Hlt.
    unfold st', with_object in Hl. simpl in Hl. by rewrite lookup_app_l in Hl.
  + unfold st', with_object in Hl. simpl in Hl. rewrite lookup_fresh in Hl.
    apply Hocls. congruence.
- intros name' i j l1 l2 H1 H2 Heq. destruct (decide (name' = name)) as [->|Hne].
  + rewrite Hbeq in H1, H2.
    apply lookup_snoc_Some in H1 as [H1|[-> ->]];
      apply lookup_snoc_Some in H2 as [H2|[-> ->]].
    * pose proof (list_elem_of_lookup_2 _ _ _ H1) as Hin1.
      pose proof (list_elem_of_lookup_2 _ _ _ H2) as Hin2.
      rewrite (Hold _ _ Hin1), (Hold _ _ Hin2) in Heq. eauto.
    * pose proof (list_elem_of_lookup_2 _ _ _ H1) as Hin1.
      rewrite (Hold _ _ Hin1), Hnew, (Hmiss _ Hin1) in Heq. done.
    * pose proof (list_elem_of_lookup_2 _ _ _ H2) as Hin2.
      rewrite (Hold _ _ Hin2), Hnew, loose_eq_sym, (Hmiss _ Hin2) in Heq. done.
    * done.
  + rewrite Hbne in H1, H2 by done.
    pose proof (list_elem_of_lookup_2 _ _ _ H1) as Hin1.
    pose proof (list_elem_of_lookup_2 _ _ _ H2) as Hin2.
    rewrite (Hold _ _ Hin1), (Hold _ _ Hin2) in Heq. eauto.
Qed.

Lemma getReference_id_inv (st : state) (c : EntityClass) (k : value) :
  S k → id_inv S C st → id_inv S C (fst (getReference st c k)).
Proof.
intros Hk Hinv. unfold getReference.
rewrite getFromObjectMap_defined by by apply S_defined.
destruct (find_id st k (bucket st (cls_name c))) as [l|] eqn:Hfind; [done|].
destruct (body (snd (getProxyClass st c)) ∅) as [own|err] eqn:Hbody.
- rewrite (createProxy_ok _ _ _ _ (proj1 Hinv) Hbody). simpl.
  apply (id_inv_with_object st (cls_name c) _ _ k k); auto. done.
- rewrite (createProxy_throws _ _ _ _ Hbody). simpl.
  destruct (getProxyClass_heap st c) as [Hh Hm]. by apply (id_inv_ext st).
Qed.

Lemma readable_entity_id (e : Entity) :
  readable_id (e_class e) → entity_get e "id" = record_get (values e) "id".
Proof. intros (p & Hp & Hr). unfold entity_get. by rewrite Hp, Hr. Qed.

Lemma update_id_inv (st : state) (name : string) (existing : loc) (data : record)
    (k : value) :
  id_inv S C st →
  existing ∈ bucket st name →
  loose_eq (id_at st existing) k = true →
  record_get data "id" = k →
  S k →
  id_inv S C (fst (update st existing data)).
Proof.
intros Hinv Hin Hold Hdata Hk. unfold update.
destruct (heap st !! existing) as [[e0|p]|] eqn:E; [| |done].
2: { by destruct (schema (p_class p)). }
destruct (update_loop (schema (e_class e0)) data e0) as [e' r] eqn:Hloop. simpl.
pose proof (update_loop_inv _ _ _ _ _ Hloop) as (Hc & _ & _ & Hcases).
pose proof Hinv as (_ & Hnum & Hcls & _).
destruct (C_reads _ (Hcls _ _ _ Hin E)) as [Hread Hpres].
assert (S (obj_id (OEntity e')) ∧ loose_eq (obj_id (OEntity e')) k = true)
  as [HS' Hnew].
{ simpl. rewrite readable_entity_id by by rewrite Hc.
  pose proof (Hnum _ _ Hin) as HSold.
  unfold id_at in HSold, Hold. rewrite E in HSold, Hold. simpl in HSold, Hold.
  rewrite readable_entity_id in HSold, Hold by done.
  destruct (Hcases "id") as [Heq|(p & v & Hp & Hv & Hs)].
  - unfold record_get in *. by rewrite Heq.
  - rewrite Hdata in Hv. destruct (Hpres k Hk _ _ Hp Hv) as [? ?].
    unfold record_get. by rewrite Hs. }
apply (id_inv_change st _ existing k).
- done.
- done.
- unfold store. simpl. by rewrite length_insert.
- intros name' l Hl Hne. unfold id_at. by rewrite store_lookup_ne.
- done.
- done.
- unfold id_at. by rewrite (store_lookup_eq _ _ _ _ E).
- unfold id_at. by rewrite (store_lookup_eq _ _ _ _ E).
- intros name' l e Hl. destruct (decide (l = existing)) as [->|Hne].
  + rewrite (store_lookup_eq _ _ _ _ E). intros [= <-]. rewrite Hc. eauto.
  + rewrite store_lookup_ne by done. eauto.
Qed.

Lemma alloc_id_inv (st : state) (o : obj) :
  id_inv S C st → id_inv S C (fst (alloc st o)).
Proof.
intros Hinv. pose proof Hinv as (Hwf & _ & Hcls & _).
apply (id_inv_same_ids st); try done.
- simpl. rewrite length_app. lia.
- intros name l Hin. apply (id_at_old st (fst (alloc st o)) l o eq_refl).
  by apply (wf_bucket _ _ _ Hwf) in Hin.
- intros name l e Hin. simpl.
  rewrite lookup_app_l by by apply (wf_bucket _ _ _ Hwf) in Hin. eauto.
Qed.

Lemma store_proxy_id_inv (st : state) (l : loc) (p p' : ProxyInstance) :
  id_inv S C st → heap st !! l = Some (OProxy p) → p_id p' = p_id p →
  id_inv S C (store st l (OProxy p')).
Proof.
intros Hinv Hl Hid. pose proof Hinv as (_ & _ & Hcls & _).
apply (id_inv_same_ids st); try done.
- unfold store. simpl. by rewrite length_insert.
- intros name l' _. unfold id_at. destruct (decide (l' = l)) as [->|Hne].
  + rewrite (store_lookup_eq _ _ _ _ Hl), Hl. done.
  + by rewrite store_lookup_ne.
- intros name l' e Hin. destruct (decide (l' = l)) as [->|Hne].
  + by rewrite (store_lookup_eq _ _ _ _ Hl).
  + rewrite store_lookup_ne by done. eauto.
Qed.

Lemma build_entity_id (c : EntityClass) (data : record) (e : Entity) (k : value) :
  C c → S k →
  record_get data "id" = k →
  build_entity c data = Ok e →
  e_class e = c
  ∧ S (record_get (values e) "id")
  ∧ loose_eq (record_get (values e) "id") k = true.
Proof.
intros Hc Hk Hdata Hb. destruct (C_reads _ Hc) as [(p & Hp & _) Hpres].
destruct (build_entity_inv _ _ _ Hb) as (Hcls & _).
split; [done|]. unfold build_entity in Hb. apply defineProperties_update_loop in Hb.
destruct (update_loop_sets _ _ _ _ "id" Hb) as (q & v & Hq & Hv & Hs).
{ apply list_elem_of_fmap. exists ("id", p). split; [done|]. by apply schema_get_elem. }
rewrite Hdata in Hv. destruct (Hpres k Hk _ _ Hq Hv) as [? ?].
unfold record_get. by rewrite Hs.
Qed.

Lemma create_id_inv (st : state) (c : EntityClass) (data : option record) (k : value) :
  id_inv S C st →
  C c → S k →
  record_get (default ∅ data) "id" = k →
  id_inv S C (fst (create st c data)).
Proof.
intros Hinv Hcls Hk Hdata. unfold create.
destruct (build_entity c (default ∅ data)) as [ent|err] eqn:Hb; [|done].
rewrite Hdata. rewrite getFromObjectMap_defined by by apply S_defined.
destruct (find_id st k (bucket st (cls_name c))) as [l|] eqn:Hfind.
- apply find_id_Some in Hfind as (pre & post & Hbk & Heq & _).
  assert (l ∈ bucket st (cls_name c)) as Hin.
  { rewrite Hbk. apply elem_of_app. right. apply list_elem_of_here. }
  destruct (getProxyClass st c) as [st1 pc] eqn:Hg.
  destruct (getProxyClass_state _ _ _ _ Hg) as [Hh Hm].
  assert (id_inv S C st1) as Hinv1 by by apply (id_inv_ext st).
  destruct (instanceof_proxy st1 l c) eqn:Hi; simpl.
  + unfold instanceof_proxy in Hi.
    destruct (heap st1 !! l) as [[e0|p]|] eqn:E; try discriminate.
    rewrite (lookup_app_l (heap st1)) by by apply lookup_lt_Some in E.
    rewrite E. simpl.
    pose proof (alloc_id_inv st1 (OEntity ent) Hinv1) as Hinv2.
    assert (heap (fst (alloc st1 (OEntity ent))) !! l = Some (OProxy p)) as E2.
    { simpl. rewrite lookup_app_l; [done|]. by apply lookup_lt_Some in E. }
    pose proof (store_proxy_id_inv _ l p
                  {| p_key := p_key p; p_class := p_class p; p_id := p_id p;
                     object := Some (length (heap st1)); p_own := p_own p |}
                  Hinv2 E2 eq_refl) as Hinv3.
    destruct (call_constructor c (p_own p)) as [own|err]; simpl; [|exact Hinv3].
    apply (store_proxy_id_inv _ l
             {| p_key := p_key p; p_class := p_class p; p_id := p_id p;
                object := Some (length (heap st1)); p_own := p_own p |});
      [exact Hinv3| |reflexivity].
    by apply (store_lookup_eq _ _ _ _ E2).
  + assert (id_inv S C (fst (update st1 l (default ∅ data)))) as Hinv2.
    { apply (update_id_inv st1 (cls_name c) l _ k); try done.
      - unfold bucket. rewrite Hm. exact Hin.
      - unfold id_at. rewrite Hh. exact Heq. }
    destruct (update st1 l (default ∅ data)) as [st2 [[]|err]]; exact Hinv2.
- destruct (call_constructor c (e_own ent)) as [own|err]; [|done].
  destruct (build_entity_id _ _ _ _ Hcls Hk Hdata Hb) as (Hc & HSv & Hvk).
  assert (fst (let '(st1, l) := alloc st (set_own (OEntity ent) own) in
               (addToObjectMap st1 c l, Ok l))
          = with_object st (cls_name c) (set_own (OEntity ent) own) (proxyClasses st))
    as ->.
  { simpl. unfold addToObjectMap, with_object, bucket. simpl.
    rewrite bool_decide_eq_false_2; [done|].
    apply (fresh_not_in_bucket st (cls_name c) (proj1 Hinv)). }
  apply (id_inv_with_object st (cls_name c) _ _ k (record_get (values ent) "id")).
  + done.
  + simpl. unfold entity_get. simpl.
    destruct (C_reads _ Hcls) as [(p & Hp & Hr) _]. by rewrite Hc, Hp, Hr.
  + done.
  + done.
  + done.
  + intros e [= <-]. simpl. by rewrite Hc.
  + done.
Qed.

Lemma run_id_inv (calls : list call) (st : state) :
  id_inv S C st →
  (∀ c, c ∈ calls → S (call_id c)) →
  (∀ entityClass data, Construct entityClass data ∈ calls → C entityClass) →
  id_inv S C (run st calls).
Proof.
revert st. induction calls as [|c calls IH]; simpl; intros st Hinv HS HC; [done|].
apply IH.
- pose proof (HS c (list_elem_of_here _ _)) as Hk.
  destruct c as [cls data|cls id]; simpl in *.
  + apply (create_id_inv _ _ _ (record_get (default ∅ data) "id")); try done.
    apply (HC cls data). apply list_elem_of_here.
  + by apply getReference_id_inv.
- intros c' Hin. apply HS. by apply list_elem_of_further.
- intros cls data Hin. apply (HC cls data). by apply list_elem_of_further.
Qed.

Lemma id_inv_unique (st : state) (T : EntityClass) (l1 l2 : loc) :
  id_inv S C st →
  l1 ∈ getAll st T → l2 ∈ getAll st T →
  id_at st l1 = id_at st l2 ∨ (∃ K, S K ∧ loose_eq (id_at st l1) K = true
                                    ∧ loose_eq (id_at st l2) K = true) →
  l1 = l2.
Proof.
intros (_ & Hnum & _ & Hnd) Hin1 Hin2 Hids.
pose proof (Hnum _ _ Hin1) as HS1. pose proof (Hnum _ _ Hin2) as HS2.
apply list_elem_of_lookup_1 in Hin1 as [i Hi].
apply list_elem_of_lookup_1 in Hin2 as [j Hj].
assert (i = j) as ->; [|unfold getAll in *; congruence].
apply (Hnd (cls_name T) i j l1 l2 Hi Hj).
destruct Hids as [Heq|(K & HK & H1 & H2)].
- rewrite <- Heq. auto.
- rewrite loose_eq_sym in H2. eauto.
Qed.

End IdentityUniqueness.

(** Runs that use string ids only are coherent. *)
Lemma coherent_string_calls : coherent_calls string_ids string_calls.
Proof.
unfold coherent_calls, string_ids. split_and!.
- by intros x [->| ->].
- by intros x [->| ->]; vm_compute.
- by intros x y z [->| ->] [->| ->] [->| ->]; vm_compute.
- intros c Hc. repeat (apply elem_of_cons in Hc as [->|Hc]);
    [vm_compute; auto ..|by apply not_elem_of_nil in Hc].
- intros cls data Hc.
  assert (cls = User) as ->.
  { repeat (apply elem_of_cons in Hc as [Hc|Hc]); try congruence.
    by apply not_elem_of_nil in Hc. }
  split; [by exists identity_property|].
  intros k Hk p v Hp Hv.
  assert (p = identity_property) as ->.
  { repeat (apply elem_of_cons in Hp as [Hp|Hp]); try congruence.
    by apply not_elem_of_nil in Hp. }
  injection Hv as <-. split; [done|]. by destruct Hk as [->| ->]; vm_compute.
Qed.

(** So are runs that use a number together with the string that is [==] to
    it, for a class that reads its ids as numbers. *)
Lemma coherent_coerced_calls : coherent_calls coerced_ids coerced_calls.
Proof.
unfold coherent_calls, coerced_ids. split_and!.
- by intros x [->| ->].
- by intros x [->| ->]; vm_compute.
- by intros x y z [->| ->] [->| ->] [->| ->]; vm_compute.
- intros c Hc. repeat (apply elem_of_cons in Hc as [->|Hc]);
    [vm_compute; auto ..|by apply not_elem_of_nil in Hc].
- intros cls data Hc.
  assert (cls = Invoice) as ->.
  { repeat (apply elem_of_cons in Hc as [Hc|Hc]); try congruence.
    by apply not_elem_of_nil in Hc. }
  split; [by exists numeric_id_property|].
  intros k Hk p v Hp Hv.
  assert (p = numeric_id_property) as ->.
  { repeat (apply elem_of_cons in Hp as [Hp|Hp]); try congruence.
    by apply not_elem_of_nil in Hp. }
  destruct Hk as [->| ->]; vm_compute in Hv; injection Hv as <-;
    (split; [auto|by vm_compute]).
Qed.

(** C1 (amended): after any sequence of [create] and [getReference] calls
    made on a fresh manager, where [S] is a set of ids that holds the id of
    every call, leaves out undefined, and on which [==] is reflexive and
    transitive, and where every constructed class has a readable [id]
    property whose transform takes an id of [S] to an id of [S] that is [==]
    to it: for every entity type [T] and every id [K], at most one tracked
    object of [T] has the id [K]; and for [K] in [S], at most one tracked
    object of [T] has an id [==] to [K]. *)
Theorem identity_unique (S : value → Prop) (calls : list call) (T : EntityClass)
    (K : value) (l1 l2 : loc) :
  coherent_calls S calls →
  l1 ∈ getAll (run empty_state calls) T →
  l2 ∈ getAll (run empty_state calls) T →
  (id_at (run empty_state calls) l1 = K ∧ id_at (run empty_state calls) l2 = K)
  ∨ (S K
     ∧ loose_eq (id_at (run empty_state calls) l1) K = true
     ∧ loose_eq (id_at (run empty_state calls) l2) K = true) →
  l1 = l2.
Proof.
intros (Hdef & Hrefl & Htrans & Hids & Hcls) Hin1 Hin2 HK.
set (C := λ c : EntityClass, readable_id c ∧ ∀ k, S k → reads_id S c k).
assert (id_inv S C (run empty_state calls)) as Hinv.
{ apply (run_id_inv S C Hdef Hrefl Htrans (λ c H, H)).
  - apply id_inv_empty.
  - done.
  - intros cls data Hc. exact (Hcls cls data Hc). }
apply (id_inv_unique S C Hrefl Htrans _ T l1 l2 Hinv Hin1 Hin2).
destruct HK as [[H1 H2]|(HS & H1 & H2)]; [left; congruence|right; eauto].
Qed.

Lemma identity_unique_witness :
  coherent_calls coerced_ids coerced_calls
  ∧ getAll (run empty_state coerced_calls) Invoice = [0]
  ∧ id_at (run empty_state coerced_calls) 0 = VNum 7
  ∧ loose_eq (id_at (run empty_state coerced_calls) 0) (VStr "7") = true
  ∧ 0 = 0.
Proof.
split; [apply coherent_coerced_calls|].
assert (getAll (run empty_state coerced_calls) Invoice = [0]) as Hall
  by (vm_compute; reflexivity).
assert (loose_eq (id_at (run empty_state coerced_calls) 0) (VStr "7") = true) as Heq
  by (vm_compute; reflexivity).
assert (0 ∈ getAll (run empty_state coerced_calls) Invoice) as Hin
  by (rewrite Hall; apply list_elem_of_here).
split; [exact Hall|]. split; [vm_compute; reflexivity|]. split; [exact Heq|].
apply (identity_unique coerced_ids coerced_calls Invoice (VStr "7") 0 0
         coherent_coerced_calls Hin Hin).
right. split; [by left|]. split; exact Heq.
Defined.

(** A class whose [id] transform does not give the id back loses identity
    uniqueness: the lookup compares the requested id with the transformed
    one, misses, and a second entity with the same id is registered. *)
Lemma identity_shifted_ids_example :
  let st := run empty_state
              [Construct Ticket (Some (<["id" := VNum 5]> ∅));
               Construct Ticket (Some (<["id" := VNum 5]> ∅))] in
  getAll st Ticket = [0; 1] ∧ id_at st 0 = VNum 6 ∧ id_at st 1 = VNum 6.
Proof. by vm_compute. Qed.

(** * Failure partway through [update] *)

Lemma update_loop_prefix (pre rest : Schema) (data : record) (e : Entity) :
  (∀ n q, (n, q) ∈ pre → ∃ v, call_transform q (record_get data n) = Ok v) →
  ∃ e1, update_loop pre data e = (e1, Ok tt)
    ∧ update_loop (pre ++ rest) data e = update_loop rest data e1.
Proof.
  revert e. induction pre as [|[n q] pre IH]; simpl; intros e H; [by exists e|].
  destruct (H n q (list_elem_of_here _ _)) as [v Hv].
  unfold loadPropertyValue. rewrite Hv. apply IH.
  intros n' q' Hin. apply (H n' q'). by apply list_elem_of_further.
Qed.

(** What [update] leaves behind when the transform of a property throws,
    the ones before it in the schema having been loaded. *)
Lemma update_loop_partial (pre post : Schema) (name : string) (p : Property)
    (data : record) (e : Entity) (err : error) :
  NoDup (pre ++ (name, p) :: post).*1 →
  (∀ n q, (n, q) ∈ pre → ∃ v, call_transform q (record_get data n) = Ok v) →
  call_transform p (record_get data name) = Throw err →
  ∃ e', update_loop (pre ++ (name, p) :: post) data e = (e', Throw err)
    ∧ e_class e' = e_class e ∧ dirty e' = dirty e ∧ e_own e' = e_own e
    ∧ (∀ n q, (n, q) ∈ pre →
         ∃ v, call_transform q (record_get data n) = Ok v
           ∧ values e' !! n = Some v
           ∧ raw e' !! n = Some (record_get data n))
    ∧ raw e' !! name = Some (record_get data name)
    ∧ values e' !! name = values e !! name
    ∧ (∀ n, n ∉ pre.*1 → n ≠ name →
         values e' !! n = values e !! n ∧ raw e' !! n = raw e !! n).
Proof.
  intros Hnd Hpre Hfail.
  rewrite fmap_app in Hnd. apply NoDup_app in Hnd as (Hndpre & Hdisj & _).
  assert (name ∉ pre.*1) as Hname.
  { intros Hin. apply (Hdisj name Hin). simpl. apply list_elem_of_here. }
  destruct (update_loop_prefix pre ((name, p) :: post) data e Hpre) as (e1 & H1 & ->).
  pose proof (update_loop_inv _ _ _ _ _ H1) as (Hc & Hd & Ho & _).
  simpl. unfold loadPropertyValue. rewrite Hfail.
  eexists. split; [reflexivity|]. simpl. split_and!; try done.
  - intros n q Hin. destruct (update_loop_ok _ _ _ _ Hndpre H1 n q Hin) as (v & Hv & Hval & Hraw).
    exists v. split_and!; [done|done|].
    rewrite lookup_insert_ne; [done|]. intros <-. apply Hname.
    apply list_elem_of_fmap. by exists (name, q).
  - apply lookup_insert_eq.
  - by destruct (update_loop_other _ _ _ _ _ name H1 Hname) as [-> _].
  - intros n Hn Hne. destruct (update_loop_other _ _ _ _ _ n H1 Hn) as [-> Hr].
    split; [done|]. by rewrite lookup_insert_ne.
Qed.

(** C4 (amended). When some property's transform is missing or throws on
    its raw value, [create] throws and leaves the whole state as it was.
    [update] is not atomic: when the transform of a property throws (a
    missing one throws a TypeError), the properties before it in the schema
    have their new raw and transformed values, the failing one has its new
    raw value and its old transformed value, and all other properties keep
    both; the error is passed on, and the object map and every other
    object are untouched. *)
Theorem failure_in_create_and_update (st : state) (c : EntityClass) (data : record)
    (name : string) (p : Property) :
  (name, p) ∈ schema c →
  (transform p = None ∨ ∃ err, call_transform p (record_get data name) = Throw err) →
  (∃ err, create st c (Some data) = (st, Throw err))
  ∧ ∀ pre post err l e,
      schema c = pre ++ (name, p) :: post →
      NoDup (schema c).*1 →
      (∀ n q, (n, q) ∈ pre → ∃ v, call_transform q (record_get data n) = Ok v) →
      call_transform p (record_get data name) = Throw err →
      heap st !! l = Some (OEntity e) →
      e_class e = c →
      ∃ e', update st l data = (store st l (OEntity e'), Throw err)
        ∧ e_class e' = c ∧ dirty e' = dirty e ∧ e_own e' = e_own e
        ∧ (∀ n q, (n, q) ∈ pre →
             ∃ v, call_transform q (record_get data n) = Ok v
               ∧ values e' !! n = Some v
               ∧ raw e' !! n = Some (record_get data n))
        ∧ raw e' !! name = Some (record_get data name)
        ∧ values e' !! name = values e !! name
        ∧ (∀ n, n ∉ pre.*1 → n ≠ name →
             values e' !! n = values e !! n ∧ raw e' !! n = raw e !! n)
        ∧ objectMap (store st l (OEntity e')) = objectMap st
        ∧ (∀ l', l' ≠ l → heap (store st l (OEntity e')) !! l' = heap st !! l').
Proof.
  intros Hin Hfail. split.
  - assert (∃ err, call_transform p (record_get data name) = Throw err) as [err Herr].
    { destruct Hfail as [Hnone|?]; [|done]. exists TypeError.
      unfold call_transform. by rewrite Hnone. }
    unfold create, build_entity. simpl.
    edestruct (defineProperties_throws (schema c) data) as [err' ->]; [done..|].
    by exists err'.
  - intros pre post err l e Hsch Hnd Hpre Herr Hl Hcls.
    rewrite Hsch in Hnd.
    destruct (update_loop_partial pre post name p data e err Hnd Hpre Herr)
      as (e' & Hloop & Hc & Hd & Ho & Hbefore & Hraw & Hval & Hrest).
    exists e'. split_and!; try done.
    + unfold update. by rewrite Hl, Hcls, Hsch, Hloop.
    + congruence.
    + intros l' Hne. by apply store_lookup_ne.
Qed.

Lemma failure_in_create_and_update_witness :
  let st := fst (create empty_state Account (Some (account_data (VNum 1) "Ann" (VNum 10)))) in
  let data := account_data (VNum 1) "Bob" (VStr "x") in
  (∃ err, create st Account (Some data) = (st, Throw err))
  ∧ ∃ e', update st 0 data = (store st 0 (OEntity e'), Throw (Raised "not a number"))
      ∧ values e' !! "owner" = Some (VStr "Bob")
      ∧ raw e' !! "balance" = Some (VStr "x")
      ∧ values e' !! "balance" = Some (VNum 10).
Proof.
  intros st data.
  destruct (failure_in_create_and_update st Account data "balance" number_property)
    as [Hcreate Hupdate].
  - simpl. do 2 apply list_elem_of_further. apply list_elem_of_here.
  - right. exists (Raised "not a number"). reflexivity.
  - split; [exact Hcreate|].
    destruct (Hupdate [("id", identity_property); ("owner", identity_property)] []
                (Raised "not a number") 0
                {| e_class := Account;
                   values := <["balance" := VNum 10]>
                               (<["owner" := VStr "Ann"]> (<["id" := VNum 1]> ∅));
                   raw := <["balance" := VNum 10]>
                            (<["owner" := VStr "Ann"]> (<["id" := VNum 1]> ∅));
                   dirty := false; e_own := ∅ |})
      as (e' & Hu & _ & _ & _ & Hbefore & Hraw & Hval & _); try reflexivity.
    + simpl. apply NoDup_cons. split.
      * intros H. in_list H.
      * apply NoDup_two. discriminate.
    + intros n q H. in_list H; injection H as -> ->; eexists; reflexivity.
    + exists e'. split; [exact Hu|].
      destruct (Hbefore "owner" identity_property) as (v & Hv & Hvv & _).
      { apply list_elem_of_further, list_elem_of_here. }
      simpl in Hv. injection Hv as <-.
      split; [exact Hvv|]. split; [exact Hraw|]. rewrite Hval. reflexivity.
Defined.
